(** * The task list of src/App.tsx: store operations and persistence

    The source file holds three variants of one React component [App].  The
    handlers ([addTodo], [toggleTodo], [deleteTodo], [startEditing],
    [saveEdit], [cancelEdit], the "Clear completed" click handler) are the
    same text in all three; the variants differ in whether a task carries
    [createdAt], in whether [filteredTodos] is sorted, and in the initial
    filter.  A React handler reads the state of the render it closes over
    and schedules the next state, one event at a time, so every handler is
    a function from the state before to the state after.

    The platform functions the handlers call ([String.prototype.trim],
    [Array.prototype.sort], [JSON.stringify], [JSON.parse]) are modelled
    after ECMA-262; [crypto.randomUUID()] and [Date.now()] are inputs. *)

From Stdlib Require Import ZArith List Bool Lia String Ascii Permutation Sorted.
From stdpp Require Import base list.
Import ListNotations.

Set Warnings "-register-all".
Local Open Scope N_scope.

(** ** JavaScript strings

    A JavaScript string is a sequence of UTF-16 code units, each an
    unsigned integer below 65536. *)

Abbreviation code_unit := N (only parsing).
Abbreviation jsstring := (list N) (only parsing).

(** An ASCII literal as code units. *)
Definition str (s : string) : jsstring :=
  map N_of_ascii (list_ascii_of_string s).

(** [s === t] on strings. *)
Definition String_eqb (s t : jsstring) : bool := bool_decide (s = t).

(** ECMA-262 WhiteSpace and LineTerminator code points; all of them lie in
    the basic plane, so they are single code units. *)
Definition is_trim_space (c : code_unit) : bool :=
  (c =? 9) || (c =? 10) || (c =? 11) || (c =? 12) || (c =? 13) ||
  (c =? 32) || (c =? 160) || (c =? 5760) ||
  ((8192 <=? c) && (c <=? 8202)) ||
  (c =? 8232) || (c =? 8233) || (c =? 8239) || (c =? 8287) ||
  (c =? 12288) || (c =? 65279).

Fixpoint trimStart (s : jsstring) : jsstring :=
  match s with
  | [] => []
  | c :: r => if is_trim_space c then trimStart r else s
  end.

Definition trimEnd (s : jsstring) : jsstring := rev (trimStart (rev s)).

(** [s.trim()] *)
Definition trim (s : jsstring) : jsstring := trimEnd (trimStart s).

(** [s !== ''] *)
Definition nonempty (s : jsstring) : bool :=
  match s with [] => false | _ :: _ => true end.

(** ** Data model *)

(** [type Todo = { id: string; text: string; completed: boolean;
    createdAt: number }].  The second variant declares no [createdAt];
    there the property is absent from the object, and reading it gives
    [undefined]: [None].  [Date.now()] is an integer number of
    milliseconds, so a timestamp is an integer. *)
Record Todo := mkTodo {
  id : jsstring;
  text : jsstring;
  completed : bool;
  createdAt : option Z
}.

(** [type FilterType = 'all' | 'active' | 'completed'] *)
Inductive FilterType := All | Active | Completed.

(** The three components of the source file, in file order. *)
Inductive variant :=
  | TaskMaster   (* lines 1-462: createdAt, sorted view *)
  | Classic      (* lines 462-726: no createdAt, plain view *)
  | TaskMasterDark. (* lines 726-1107: createdAt, plain view *)

Definition has_createdAt (v : variant) : bool :=
  match v with Classic => false | _ => true end.

Definition sorts_view (v : variant) : bool :=
  match v with TaskMaster => true | _ => false end.

Definition initial_filter (v : variant) : FilterType :=
  match v with TaskMasterDark => Active | _ => All end.

(** The [useState] cells the claims are about.  [editingId] has type
    [string | null]. *)
Record AppState := mkState {
  todos : list Todo;
  newTodo : jsstring;
  filter : FilterType;
  editingId : option jsstring;
  editText : jsstring
}.

Definition initial_state (v : variant) : AppState :=
  {| todos := []; newTodo := []; filter := initial_filter v;
     editingId := None; editText := [] |}.

Definition set_todos (l : list Todo) (st : AppState) : AppState :=
  {| todos := l; newTodo := newTodo st; filter := filter st;
     editingId := editingId st; editText := editText st |}.

Definition set_newTodo (s : jsstring) (st : AppState) : AppState :=
  {| todos := todos st; newTodo := s; filter := filter st;
     editingId := editingId st; editText := editText st |}.

Definition set_filter (f : FilterType) (st : AppState) : AppState :=
  {| todos := todos st; newTodo := newTodo st; filter := f;
     editingId := editingId st; editText := editText st |}.

Definition set_editingId (e : option jsstring) (st : AppState) : AppState :=
  {| todos := todos st; newTodo := newTodo st; filter := filter st;
     editingId := e; editText := editText st |}.

Definition set_editText (s : jsstring) (st : AppState) : AppState :=
  {| todos := todos st; newTodo := newTodo st; filter := filter st;
     editingId := editingId st; editText := s |}.

(** ** Task store *)

(** [addTodo]; [uuid] is the value [crypto.randomUUID()] returns and [now]
    the value [Date.now()] returns. *)
Definition addTodo (v : variant) (uuid : jsstring) (now : Z)
    (st : AppState) : AppState :=
  if nonempty (trim (newTodo st)) then
    let newTodoItem :=
      {| id := uuid;
         text := trim (newTodo st);
         completed := false;
         createdAt := if has_createdAt v then Some now else None |} in
    set_newTodo [] (set_todos (todos st ++ [newTodoItem]) st)
  else st.

(** [{ ...todo, completed: !todo.completed }] *)
Definition flip_completed (todo : Todo) : Todo :=
  {| id := id todo; text := text todo;
     completed := negb (completed todo); createdAt := createdAt todo |}.

(** [{ ...todo, text: t }] *)
Definition with_text (t : jsstring) (todo : Todo) : Todo :=
  {| id := id todo; text := t;
     completed := completed todo; createdAt := createdAt todo |}.

Definition toggleTodo (i : jsstring) (st : AppState) : AppState :=
  set_todos
    (map (fun todo => if String_eqb (id todo) i then flip_completed todo
                      else todo) (todos st)) st.

Definition deleteTodo (i : jsstring) (st : AppState) : AppState :=
  set_todos
    (List.filter (fun todo => negb (String_eqb (id todo) i)) (todos st)) st.

Definition startEditing (todo : Todo) (st : AppState) : AppState :=
  set_editText (text todo) (set_editingId (Some (id todo)) st).

(** Truthiness of a [string | null]: [null] and [''] are falsy. *)
Definition truthy (e : option jsstring) : bool :=
  match e with Some s => nonempty s | None => false end.

Definition saveEdit (st : AppState) : AppState :=
  match editingId st with
  | Some eid =>
      if truthy (editingId st) && nonempty (trim (editText st)) then
        set_editingId None
          (set_todos
             (map (fun todo => if String_eqb (id todo) eid
                               then with_text (trim (editText st)) todo
                               else todo) (todos st)) st)
      else st
  | None => st
  end.

Definition cancelEdit (st : AppState) : AppState := set_editingId None st.

(** The click handler of the "Clear completed" button. *)
Definition clearCompleted (st : AppState) : AppState :=
  set_todos (List.filter (fun todo => negb (completed todo)) (todos st)) st.

(** *** The view *)

(** The callback of [todos.filter] in [filteredTodos]. *)
Definition keeps (f : FilterType) (todo : Todo) : bool :=
  match f with
  | Active => negb (completed todo)
  | Completed => completed todo
  | All => true
  end.

(** The comparator of the first variant.  [b.createdAt - a.createdAt] is
    [NaN] when one of the two is [undefined]: [None]. *)
Definition compareFn (a b : Todo) : option Z :=
  if negb (eqb (completed a) (completed b)) then
    Some (if completed a then 1 else -1)%Z
  else
    match createdAt b, createdAt a with
    | Some tb, Some ta => Some (tb - ta)%Z
    | _, _ => None
    end.

(** ECMA-262 SortCompare: a comparator result of [NaN] counts as [+0]. *)
Definition SortCompare (a b : Todo) : Z :=
  match compareFn a b with Some z => z | None => 0%Z end.

(** [Array.prototype.sort] is stable.  For a comparator that is a
    consistent ordering the result is therefore determined: the stable
    sorted permutation, computed here by insertion from the right. *)
Fixpoint sort_insert (x : Todo) (l : list Todo) : list Todo :=
  match l with
  | [] => [x]
  | y :: r => if (SortCompare x y <=? 0)%Z then x :: l else y :: sort_insert x r
  end.

Fixpoint Array_sort (l : list Todo) : list Todo :=
  match l with
  | [] => []
  | x :: r => sort_insert x (Array_sort r)
  end.

Definition filteredTodos (v : variant) (st : AppState) : list Todo :=
  let kept := List.filter (keeps (filter st)) (todos st) in
  if sorts_view v then Array_sort kept else kept.

(** [view(f)]: what [filteredTodos] is once the filter is [f]. *)
Definition view (v : variant) (f : FilterType) (l : list Todo) : list Todo :=
  filteredTodos v {| todos := l; newTodo := []; filter := f;
                     editingId := None; editText := [] |}.

Definition activeTodoCount (st : AppState) : nat :=
  length (List.filter (fun todo => negb (completed todo)) (todos st)).

Definition completedTodoCount (st : AppState) : nat :=
  length (List.filter (fun todo => completed todo) (todos st)).

(** ** Persistence: [localStorage] and JSON *)

Module JSON.

(** A JSON value as [JSON.parse] builds it.  [JNumber m k] is the number
    [m / 10^k], with [k] as small as possible: numbers are kept as exact
    decimals.  (The platform rounds to binary64, which changes nothing on
    integers below 2^53 in magnitude, where all timestamps lie.)  An object
    is its properties in creation order (keys that are array indices,
    which an engine lists first, do not occur in a task). *)
Inductive json :=
  | JNull
  | JBool (b : bool)
  | JNumber (m : Z) (k : nat)
  | JString (s : jsstring)
  | JArray (l : list json)
  | JObject (props : list (jsstring * json)).

(** What a call can do: return, throw [SyntaxError], or (an artefact of
    the model, excluded below by [parse_never_out_of_fuel]) use up the
    recursion budget. *)
Inductive outcome (A : Type) :=
  | Ok (a : A)
  | SyntaxError
  | OutOfFuel.
Arguments Ok {A} a.
Arguments SyntaxError {A}.
Arguments OutOfFuel {A}.

Definition bind {A B} (o : outcome A) (k : A -> outcome B) : outcome B :=
  match o with
  | Ok a => k a
  | SyntaxError => SyntaxError
  | OutOfFuel => OutOfFuel
  end.

Notation "'do' x <- o ; k" := (bind o (fun x => k))
  (at level 10, x pattern, o at level 100, k at level 200).

(** *** Serialization *)

Definition hex_char (d : N) : code_unit :=
  if d <? 10 then 48 + d else 87 + d.

(** UnicodeEscape: a backslash, [u], four lower-case hexadecimal digits. *)
Definition UnicodeEscape (c : code_unit) : jsstring :=
  [92; 117; hex_char (c / 4096 mod 16); hex_char (c / 256 mod 16);
   hex_char (c / 16 mod 16); hex_char (c mod 16)].

Definition is_leading (c : code_unit) : bool := (55296 <=? c) && (c <=? 56319).
Definition is_trailing (c : code_unit) : bool := (56320 <=? c) && (c <=? 57343).

(** One code unit that is not the first half of a surrogate pair. *)
Definition quote_unit (c : code_unit) : jsstring :=
  if c =? 8 then [92; 98]
  else if c =? 9 then [92; 116]
  else if c =? 10 then [92; 110]
  else if c =? 12 then [92; 102]
  else if c =? 13 then [92; 114]
  else if c =? 34 then [92; 34]
  else if c =? 92 then [92; 92]
  else if (c <? 32) || is_leading c || is_trailing c then UnicodeEscape c
  else [c].

(** The body of QuoteJSONString: it walks the code points of the string,
    so a leading surrogate followed by a trailing one is copied and a lone
    surrogate is escaped. *)
Fixpoint quote_units (s : jsstring) : jsstring :=
  match s with
  | [] => []
  | c :: r =>
      if is_leading c then
        match r with
        | d :: r' =>
            if is_trailing d then c :: d :: quote_units r'
            else UnicodeEscape c ++ quote_units r
        | [] => UnicodeEscape c
        end
      else quote_unit c ++ quote_units r
  end.

Definition QuoteJSONString (s : jsstring) : jsstring :=
  34 :: quote_units s ++ [34].

(** Decimal digits of a natural number, most significant first. *)
Fixpoint dec_digits (fuel : nat) (n : N) (acc : list N) : list N :=
  match fuel with
  | O => n :: acc
  | S f => if n <? 10 then n :: acc
           else dec_digits f (n / 10) (n mod 10 :: acc)
  end.

Definition digits_of (n : N) : list N :=
  dec_digits (N.to_nat (N.size n)) n [].

Definition digit_char (d : N) : code_unit := 48 + d.

(** Number::toString for an integer below 10^21 in magnitude. *)
Definition Number_toString (z : Z) : jsstring :=
  (if (z <? 0)%Z then [45] else []) ++ map digit_char (digits_of (Z.abs_N z)).

Definition key_id : jsstring := Eval vm_compute in str "id".
Definition key_text : jsstring := Eval vm_compute in str "text".
Definition key_completed : jsstring := Eval vm_compute in str "completed".
Definition key_createdAt : jsstring := Eval vm_compute in str "createdAt".
Definition lit_true : jsstring := Eval vm_compute in str "true".
Definition lit_false : jsstring := Eval vm_compute in str "false".
Definition lit_null : jsstring := Eval vm_compute in str "null".

Definition stringify_bool (b : bool) : jsstring :=
  if b then lit_true else lit_false.

(** SerializeJSONProperty with an empty gap: the quoted key, a colon, the
    value. *)
Definition member (key value : jsstring) : jsstring :=
  QuoteJSONString key ++ 58 :: value.

(** The members of a task, in property order; a property whose value is
    [undefined] is left out. *)
Definition todo_members (t : Todo) : list jsstring :=
  [member key_id (QuoteJSONString (id t));
   member key_text (QuoteJSONString (text t));
   member key_completed (stringify_bool (completed t))] ++
  match createdAt t with
  | Some z => [member key_createdAt (Number_toString z)]
  | None => []
  end.

(** Partial results separated by commas. *)
Fixpoint join_comma (parts : list jsstring) : jsstring :=
  match parts with
  | [] => []
  | [p] => p
  | p :: ps => p ++ 44 :: join_comma ps
  end.

(** SerializeJSONObject on a task. *)
Definition stringify_todo (t : Todo) : jsstring :=
  123 :: join_comma (todo_members t) ++ [125].

(** SerializeJSONArray: [JSON.stringify(todos)] for [todos : Todo[]]. *)
Definition stringify (l : list Todo) : jsstring :=
  91 :: join_comma (map stringify_todo l) ++ [93].

(** *** Parsing *)

(** JSON white space: tab, line feed, carriage return, space. *)
Definition is_ws (c : code_unit) : bool :=
  (c =? 9) || (c =? 10) || (c =? 13) || (c =? 32).

Fixpoint skip_ws (s : jsstring) : jsstring :=
  match s with
  | [] => []
  | c :: r => if is_ws c then skip_ws r else s
  end.

Definition is_digit (c : code_unit) : bool := (48 <=? c) && (c <=? 57).

Definition hex_value (c : code_unit) : option N :=
  if is_digit c then Some (c - 48)
  else if (97 <=? c) && (c <=? 102) then Some (c - 87)
  else if (65 <=? c) && (c <=? 70) then Some (c - 55)
  else None.

Definition hex4 (a b c d : code_unit) : option code_unit :=
  match hex_value a, hex_value b, hex_value c, hex_value d with
  | Some x3, Some x2, Some x1, Some x0 =>
      Some (4096 * x3 + 256 * x2 + 16 * x1 + x0)
  | _, _, _, _ => None
  end.

(** The character after a backslash, other than [u]. *)
Definition simple_escape (e : code_unit) : option code_unit :=
  if e =? 34 then Some 34
  else if e =? 92 then Some 92
  else if e =? 47 then Some 47
  else if e =? 98 then Some 8
  else if e =? 102 then Some 12
  else if e =? 110 then Some 10
  else if e =? 114 then Some 13
  else if e =? 116 then Some 9
  else None.

Definition push (c : code_unit) (o : outcome (jsstring * jsstring))
    : outcome (jsstring * jsstring) :=
  do (s, rest) <- o; Ok (c :: s, rest).

(** The characters of a string literal after its opening quote, up to and
    including the closing quote. *)
Fixpoint parse_chars (s : jsstring) : outcome (jsstring * jsstring) :=
  match s with
  | [] => SyntaxError
  | c :: r =>
      if c =? 34 then Ok ([], r)
      else if c =? 92 then
        match r with
        | [] => SyntaxError
        | e :: r1 =>
            if e =? 117 then
              match r1 with
              | h3 :: h2 :: h1 :: h0 :: r2 =>
                  match hex4 h3 h2 h1 h0 with
                  | Some u => push u (parse_chars r2)
                  | None => SyntaxError
                  end
              | _ => SyntaxError
              end
            else
              match simple_escape e with
              | Some u => push u (parse_chars r1)
              | None => SyntaxError
              end
        end
      else if c <? 32 then SyntaxError
      else push c (parse_chars r)
  end.

Fixpoint take_digits (s : jsstring) : list N * jsstring :=
  match s with
  | [] => ([], [])
  | c :: r =>
      if is_digit c then let '(ds, r') := take_digits r in (c - 48 :: ds, r')
      else ([], s)
  end.

Definition digits_value (ds : list N) : N :=
  fold_left (fun a d => 10 * a + d) ds 0.

(** [m / 10^k] with the trailing zeros of [m] cancelled. *)
Fixpoint normalise (m : Z) (k : nat) : Z * nat :=
  match k with
  | O => (m, O)
  | S k' => if (m mod 10 =? 0)%Z then normalise (m / 10)%Z k' else (m, k)
  end.

(** The value of [int . frac e exp]. *)
Definition decimal_value (neg : bool) (int frac : list N) (exp : Z) : json :=
  let m := Z.of_N (digits_value (int ++ frac)) in
  let m := if neg then (- m)%Z else m in
  let e := (exp - Z.of_nat (length frac))%Z in
  if (0 <=? e)%Z then JNumber (m * 10 ^ e)%Z 0
  else let '(m', k) := normalise m (Z.to_nat (- e)) in JNumber m' k.

(** The digits of an exponent. *)
Definition parse_exp_digits (neg : bool) (s : jsstring)
    : outcome (Z * jsstring) :=
  match take_digits s with
  | ([], _) => SyntaxError
  | (ds, r) =>
      let x := Z.of_N (digits_value ds) in
      Ok (if neg then (- x)%Z else x, r)
  end.

(** The optional exponent part of a number. *)
Definition parse_exponent (s : jsstring) : outcome (Z * jsstring) :=
  match s with
  | c :: r =>
      if (c =? 101) || (c =? 69) then
        match r with
        | sg :: r' =>
            if sg =? 45 then parse_exp_digits true r'
            else if sg =? 43 then parse_exp_digits false r'
            else parse_exp_digits false r
        | [] => SyntaxError
        end
      else Ok (0%Z, s)
  | [] => Ok (0%Z, s)
  end.

(** The optional fraction part of a number. *)
Definition parse_fraction (s : jsstring) : outcome (list N * jsstring) :=
  match s with
  | c :: r =>
      if c =? 46 then
        match take_digits r with
        | ([], _) => SyntaxError
        | (fs, r1) => Ok (fs, r1)
        end
      else Ok ([], s)
  | [] => Ok ([], s)
  end.

(** The integer part of a number: [0], or digits that do not start with
    [0]. *)
Definition parse_int (s : jsstring) : outcome (list N * jsstring) :=
  match s with
  | [] => SyntaxError
  | c :: r =>
      if is_digit c then
        if c =? 48 then Ok ([0], r)
        else let '(ds, r') := take_digits r in Ok (c - 48 :: ds, r')
      else SyntaxError
  end.

(** A number after its sign: integer part, optional fraction, optional
    exponent. *)
Definition parse_unsigned (neg : bool) (s : jsstring)
    : outcome (json * jsstring) :=
  do (int, r1) <- parse_int s;
  do (frac, r2) <- parse_fraction r1;
  do (exp, r3) <- parse_exponent r2;
  Ok (decimal_value neg int frac exp, r3).

(** A number: an optional minus, then the rest. *)
Definition parse_number (s : jsstring) : outcome (json * jsstring) :=
  match s with
  | c :: r => if c =? 45 then parse_unsigned true r else parse_unsigned false s
  | [] => SyntaxError
  end.

(** [s] with the literal [lit] taken off its front. *)
Fixpoint expect (lit s : jsstring) : outcome jsstring :=
  match lit with
  | [] => Ok s
  | c :: lit' =>
      match s with
      | d :: r => if d =? c then expect lit' r else SyntaxError
      | [] => SyntaxError
      end
  end.

(** Defining a property of the object under construction: a key that is
    already there keeps its place and gets the new value. *)
Fixpoint set_prop (k : jsstring) (v : json) (props : list (jsstring * json))
    : list (jsstring * json) :=
  match props with
  | [] => [(k, v)]
  | (k', v') :: r =>
      if String_eqb k' k then (k, v) :: r else (k', v') :: set_prop k v r
  end.

Definition make_object (members : list (jsstring * json)) : json :=
  JObject (fold_left (fun props kv => set_prop (fst kv) (snd kv) props)
                     members []).

Definition head_is (c : code_unit) (s : jsstring) : option jsstring :=
  match s with
  | d :: r => if d =? c then Some r else None
  | [] => None
  end.

Fixpoint parse_value (fuel : nat) (s : jsstring) : outcome (json * jsstring) :=
  match fuel with
  | O => OutOfFuel
  | S f =>
      match skip_ws s with
      | [] => SyntaxError
      | c :: r =>
          if c =? 123 then
            match head_is 125 (skip_ws r) with
            | Some r' => Ok (JObject [], r')
            | None => do (ms, r') <- parse_members f r;
                      Ok (make_object ms, r')
            end
          else if c =? 91 then
            match head_is 93 (skip_ws r) with
            | Some r' => Ok (JArray [], r')
            | None => do (vs, r') <- parse_elements f r; Ok (JArray vs, r')
            end
          else if c =? 34 then
            do (str, r') <- parse_chars r; Ok (JString str, r')
          else if c =? 116 then
            do r' <- expect (tl lit_true) r; Ok (JBool true, r')
          else if c =? 102 then
            do r' <- expect (tl lit_false) r; Ok (JBool false, r')
          else if c =? 110 then
            do r' <- expect (tl lit_null) r; Ok (JNull, r')
          else parse_number (c :: r)
      end
  end
with parse_elements (fuel : nat) (s : jsstring)
    : outcome (list json * jsstring) :=
  match fuel with
  | O => OutOfFuel
  | S f =>
      do (v, r) <- parse_value f s;
      match skip_ws r with
      | c :: r' =>
          if c =? 44 then
            do (vs, r'') <- parse_elements f r'; Ok (v :: vs, r'')
          else if c =? 93 then Ok ([v], r')
          else SyntaxError
      | [] => SyntaxError
      end
  end
with parse_members (fuel : nat) (s : jsstring)
    : outcome (list (jsstring * json) * jsstring) :=
  match fuel with
  | O => OutOfFuel
  | S f =>
      match head_is 34 (skip_ws s) with
      | None => SyntaxError
      | Some r0 =>
          do (k, r1) <- parse_chars r0;
          match head_is 58 (skip_ws r1) with
          | None => SyntaxError
          | Some r2 =>
              do (v, r) <- parse_value f r2;
              match skip_ws r with
              | c :: r' =>
                  if c =? 44 then
                    do (ms, r'') <- parse_members f r';
                    Ok ((k, v) :: ms, r'')
                  else if c =? 125 then Ok ([(k, v)], r')
                  else SyntaxError
              | [] => SyntaxError
              end
          end
      end
  end.

(** [JSON.parse(text)]: one value, white space around it, nothing else. *)
Definition parse (s : jsstring) : outcome json :=
  do (v, r) <- parse_value (2 * length s + 1) s;
  match skip_ws r with
  | [] => Ok v
  | _ :: _ => SyntaxError
  end.

End JSON.

(** *** The typed reading of a parsed value

    [setTodos(JSON.parse(savedTodos))] stores whatever was parsed; the
    handlers then use it as a [Todo[]].  [toJS] is the object a task is,
    and [as_todos] reads a parsed value back as tasks when it is an array
    of such objects. *)

Definition toJS (t : Todo) : JSON.json :=
  JSON.JObject
    ([(JSON.key_id, JSON.JString (id t));
      (JSON.key_text, JSON.JString (text t));
      (JSON.key_completed, JSON.JBool (completed t))] ++
     match createdAt t with
     | Some z => [(JSON.key_createdAt, JSON.JNumber z 0)]
     | None => []
     end).

Definition as_todo (j : JSON.json) : option Todo :=
  match j with
  | JSON.JObject [(k1, JSON.JString i); (k2, JSON.JString t);
                  (k3, JSON.JBool c)] =>
      if String_eqb k1 JSON.key_id && String_eqb k2 JSON.key_text &&
         String_eqb k3 JSON.key_completed
      then Some {| id := i; text := t; completed := c; createdAt := None |}
      else None
  | JSON.JObject [(k1, JSON.JString i); (k2, JSON.JString t);
                  (k3, JSON.JBool c); (k4, JSON.JNumber z O)] =>
      if String_eqb k1 JSON.key_id && String_eqb k2 JSON.key_text &&
         String_eqb k3 JSON.key_completed && String_eqb k4 JSON.key_createdAt
      then Some {| id := i; text := t; completed := c; createdAt := Some z |}
      else None
  | _ => None
  end.

Fixpoint as_todo_list (l : list JSON.json) : option (list Todo) :=
  match l with
  | [] => Some []
  | j :: r =>
      match as_todo j, as_todo_list r with
      | Some t, Some ts => Some (t :: ts)
      | _, _ => None
      end
  end.

Definition as_todos (j : JSON.json) : option (list Todo) :=
  match j with
  | JSON.JArray l => as_todo_list l
  | _ => None
  end.

(** *** The two effects *)

(** The entry of [localStorage] under the key [todos]: [getItem] returns a
    string, or [null] when there is none. *)
Definition Storage := option jsstring.

(** What the load effect does to the [todos] cell. *)
Inductive LoadResult :=
  | NotSet                      (* [setTodos] is not called *)
  | SetTodos (v : JSON.json)    (* [setTodos(v)] *)
  | Thrown.                     (* [JSON.parse] threw; nothing catches it *)

(** [const savedTodos = localStorage.getItem('todos');
     if (savedTodos) { setTodos(JSON.parse(savedTodos)) }] *)
Definition load (savedTodos : Storage) : LoadResult :=
  if truthy savedTodos then
    match savedTodos with
    | Some text =>
        match JSON.parse text with
        | JSON.Ok v => SetTodos v
        | _ => Thrown
        end
    | None => NotSet
    end
  else NotSet.

(** The collection after the load effect, started from the initial [[]];
    [None] when the effect threw or stored a value that is no [Todo[]]. *)
Definition loaded_todos (savedTodos : Storage) : option (list Todo) :=
  match load savedTodos with
  | NotSet => Some []
  | SetTodos v => as_todos v
  | Thrown => None
  end.

(** [localStorage.setItem('todos', JSON.stringify(todos))] *)
Definition save (l : list Todo) : Storage := Some (JSON.stringify l).

(** ** Statements of the data-model invariant and of the view order *)

(** No two tasks share an id, and no task has the empty text. *)
Definition Inv (l : list Todo) : Prop :=
  NoDup (map id l) /\ Forall (fun t => text t <> []) l.

(** One user event.  The id a new task gets comes from
    [crypto.randomUUID()], whose contract is that the identifier is new. *)
Inductive step (v : variant) (st : AppState) : AppState -> Prop :=
  | step_add uuid now :
      uuid ∉ map id (todos st) -> step v st (addTodo v uuid now st)
  | step_type s : step v st (set_newTodo s st)
  | step_filter f : step v st (set_filter f st)
  | step_toggle i : step v st (toggleTodo i st)
  | step_delete i : step v st (deleteTodo i st)
  | step_start todo : todo ∈ todos st -> step v st (startEditing todo st)
  | step_draft s : step v st (set_editText s st)
  | step_save : step v st (saveEdit st)
  | step_cancel : step v st (cancelEdit st)
  | step_clear : step v st (clearCompleted st).

(** Incomplete tasks first; among tasks of equal completion the newer
    first. *)
Definition view_le (a b : Todo) : Prop :=
  (completed a = false /\ completed b = true) \/
  (completed a = completed b /\
   exists ta tb, createdAt a = Some ta /\ createdAt b = Some tb /\
                 (tb <= ta)%Z).

Definition stamped (t : Todo) : Prop := exists z, createdAt t = Some z.

(** The tasks with the id [i]. *)
Definition with_id (i : jsstring) (l : list Todo) : list Todo :=
  List.filter (fun todo => String_eqb (id todo) i) l.

Definition done_task : Todo :=
  {| id := str "a"; text := str "done"; completed := true;
     createdAt := Some 1%Z |}.

Definition open_task : Todo :=
  {| id := str "b"; text := str "open"; completed := false;
     createdAt := Some 2%Z |}.

(** Two tasks that share an id. *)
Definition twins : AppState :=
  {| todos := [done_task; with_text (str "again") done_task];
     newTodo := []; filter := All; editingId := None; editText := [] |}.

(** An edit session whose draft is blank. *)
Definition blank_draft : AppState :=
  set_editText (str "   ")
    (startEditing open_task
       {| todos := [open_task]; newTodo := []; filter := All;
          editingId := None; editText := [] |}).

(** Storage texts and collections used as examples below.  [json_text]
    reads an ASCII literal with every apostrophe standing for a double
    quote. *)
Definition json_text (s : string) : list N :=
  map (fun c => if c =? 39 then 34 else c) (str s).

(** A write that was cut short. *)
Definition truncated_storage : Storage := Some (str "[{").

(** Valid JSON for two tasks with one id. *)
Definition twins_storage : Storage :=
  Some (json_text
    "[{'id':'a','text':'done','completed':true,'createdAt':1},{'id':'a','text':'again','completed':true,'createdAt':1}]").

(** A task collection as the data model describes it: the invariant holds,
    strings are sequences of 16-bit code units, and a timestamp is an
    integer that a binary64 number holds exactly. *)
Definition valid_string (s : list N) : Prop := Forall (fun c => c < 65536) s.

Definition valid_todo (t : Todo) : Prop :=
  valid_string (id t) /\ valid_string (text t) /\
  match createdAt t with
  | Some z => (- 2 ^ 53 < z < 2 ^ 53)%Z
  | None => True
  end.

Definition valid_collection (l : list Todo) : Prop :=
  Inv l /\ Forall valid_todo l.

(** A parser call on [s] that returned left less than [s] behind, and it
    did not run out of budget. *)
Definition consumes {A} (o : JSON.outcome (A * list N)) (s : list N) : Prop :=
  match o with
  | JSON.Ok (_, r) => (length r < length s)%nat
  | JSON.SyntaxError => True
  | JSON.OutOfFuel => False
  end.

Definition keeps_input {A} (o : JSON.outcome (A * list N)) (s : list N)
    : Prop :=
  match o with
  | JSON.Ok (_, r) => (length r <= length s)%nat
  | JSON.SyntaxError => True
  | JSON.OutOfFuel => False
  end.

(** A state in the middle of a session. *)
Definition sample_state : AppState :=
  {| todos := [done_task; open_task]; newTodo := str "  Buy milk ";
     filter := All; editingId := Some (str "b"); editText := str " call  " |}.

(** ** What the component renders, the theme, and runs of events *)

(** [disabled={newTodo.trim() === ''}] on the add button of the first and
    the third variant. *)
Definition add_disabled (st : AppState) : bool :=
  negb (nonempty (trim (newTodo st))).

(** The number beside the "completed" tab of the third variant:
    [todos.length - activeTodoCount]. *)
Definition completed_badge (st : AppState) : nat :=
  (length (todos st) - activeTodoCount st)%nat.

(** Whether the "Clear completed" button is rendered: in the first variant
    under [todos.length > 0 && ... completedTodoCount > 0 && ...], in the
    second under [todos.length > 0 && ... todos.some(todo =>
    todo.completed) && ...]; the third variant has no such button. *)
Definition clear_shown (v : variant) (st : AppState) : bool :=
  match v with
  | TaskMaster =>
      (0 <? length (todos st))%nat && (0 <? completedTodoCount st)%nat
  | Classic =>
      (0 <? length (todos st))%nat && existsb completed (todos st)
  | TaskMasterDark => false
  end.

(** [editingId === todo.id]: the row of [todo] shows the edit input. *)
Definition row_editing (st : AppState) (todo : Todo) : bool :=
  match editingId st with
  | Some e => String_eqb e (id todo)
  | None => false
  end.

(** [filteredTodos.length === 0]: the list shows the empty-state message. *)
Definition shows_empty_state (v : variant) (st : AppState) : bool :=
  match filteredTodos v st with [] => true | _ :: _ => false end.

(** *** Theme

    [type Theme = 'light' | 'dark'], but the value read from storage is
    cast, not checked: at run time the theme is a string. *)
Definition light : list N := Eval vm_compute in str "light".
Definition dark : list N := Eval vm_compute in str "dark".

(** [setTheme(theme === 'light' ? 'dark' : 'light')] *)
Definition toggleTheme (theme : list N) : list N :=
  if String_eqb theme light then dark else light.




(** [classList.toggle('dark', theme === 'dark')]: whether the class is on
    afterwards. *)
Definition dark_class (theme : list N) : bool := String_eqb theme dark.

(** *** Runs *)

(** The states the sessions reach: from the initial state by events, and
    by reloading the page, which starts again with what the load effect
    makes of the text the save effect stored last. *)
Inductive reachable (v : variant) : AppState -> Prop :=
  | reach_init : reachable v (initial_state v)
  | reach_step st st' : reachable v st -> step v st st' -> reachable v st'
  | reach_reload st l :
      reachable v st -> loaded_todos (save (todos st)) = Some l ->
      reachable v (set_todos l (initial_state v)).

(** What identifies a task for good: its id and its creation time. *)
Definition task_key (t : Todo) : list N * option Z := (id t, createdAt t).

(** A text with something in it and no white space at either end. *)
Definition clean (s : list N) : Prop :=
  (exists c r, s = c :: r /\ is_trim_space c = false) /\
  (exists c r, rev s = c :: r /\ is_trim_space c = false).

(** A short run of the first variant: type, add, open the new task for
    editing. *)
Definition typed_state : AppState :=
  set_newTodo (str " Buy milk ") (initial_state TaskMaster).

Definition one_task_state : AppState :=
  addTodo TaskMaster (str "c") 1700000000000 typed_state.

Definition milk_task : Todo :=
  {| id := str "c"; text := str "Buy milk"; completed := false;
     createdAt := Some 1700000000000%Z |}.

Definition editing_state : AppState := startEditing milk_task one_task_state.

(** A longer run of the first variant: three tasks added one after the
    other, the first one completed in between. *)
Definition run_1 : AppState :=
  addTodo TaskMaster (str "c") 1000 (set_newTodo (str "one") (initial_state TaskMaster)).

Definition run_2 : AppState :=
  addTodo TaskMaster (str "d") 2000 (set_newTodo (str "two") run_1).

Definition run_3 : AppState := toggleTodo (str "c") run_2.

Definition run_4 : AppState :=
  addTodo TaskMaster (str "e") 3000 (set_newTodo (str "three") run_3).

(** The same run with the completed task opened for editing and the
    "active" tab chosen, which hides its row. *)
Definition run_hidden : AppState :=
  set_filter Active
    (startEditing {| id := str "c"; text := str "one"; completed := true;
                     createdAt := Some 1000%Z |} run_4).

(** A collection holding a task, and [crypto.randomUUID()] returning the
    id of that task once more. *)
Definition uuid_0 : list N := str "123e4567-e89b-42d3-a456-426614174000".

Definition collide_state : AppState :=
  {| todos := [{| id := uuid_0; text := str "first"; completed := false;
                  createdAt := Some 1000%Z |}];
     newTodo := str "second"; filter := All;
     editingId := None; editText := [] |}.

(** ** The task store *)

Section Store.

Implicit Types (st : AppState) (l : list Todo) (t : Todo) (i : jsstring).

Lemma String_eqb_eq (s1 s2 : jsstring) : String_eqb s1 s2 = true <-> s1 = s2.
Proof. unfold String_eqb. apply bool_decide_eq_true. Qed.

Lemma String_eqb_neq (s1 s2 : jsstring) : String_eqb s1 s2 = false <-> s1 <> s2.
Proof. unfold String_eqb. apply bool_decide_eq_false. Qed.

Lemma nonempty_true (s : jsstring) : nonempty s = true <-> s <> [].
Proof. destruct s; simpl; split; congruence. Qed.

Lemma nonempty_false (s : jsstring) : nonempty s = false <-> s = [].
Proof. destruct s; simpl; split; congruence. Qed.

(** *** trim *)

Lemma trimStart_head (s : jsstring) c r :
  trimStart s = c :: r -> is_trim_space c = false.
Proof.
  induction s as [|d s IH]; simpl; [discriminate|].
  destruct (is_trim_space d) eqn:E; [exact IH|].
  intros [= -> _]. exact E.
Qed.

Lemma trimStart_fixed (s : jsstring) c r :
  s = c :: r -> is_trim_space c = false -> trimStart s = s.
Proof. intros -> H. simpl. now rewrite H. Qed.

Lemma trimStart_idem (s : jsstring) : trimStart (trimStart s) = trimStart s.
Proof.
  destruct (trimStart s) as [|c r] eqn:E; [reflexivity|].
  eapply trimStart_fixed; [reflexivity|]. eapply trimStart_head, E.
Qed.

Lemma trimStart_suffix (s : jsstring) : exists p, s = p ++ trimStart s.
Proof.
  induction s as [|d s [p IH]]; simpl; [now exists []|].
  destruct (is_trim_space d).
  - exists (d :: p). simpl. now f_equal.
  - now exists [].
Qed.

Lemma trimEnd_prefix (s : jsstring) : exists q, s = trimEnd s ++ q.
Proof.
  unfold trimEnd. destruct (trimStart_suffix (rev s)) as [p Hp].
  exists (rev p). rewrite <- rev_app_distr, <- Hp. now rewrite rev_involutive.
Qed.

(** A trimmed string does not start with white space ... *)
Lemma trim_head (s : jsstring) c r :
  trim s = c :: r -> is_trim_space c = false.
Proof.
  unfold trim. intros E. destruct (trimEnd_prefix (trimStart s)) as [q Hq].
  rewrite E in Hq. cbn in Hq. eapply trimStart_head, Hq.
Qed.

(** ... nor end with it ... *)
Lemma trim_last (s : jsstring) c r :
  rev (trim s) = c :: r -> is_trim_space c = false.
Proof.
  unfold trim, trimEnd. rewrite rev_involutive. apply trimStart_head.
Qed.

(** ... and trimming it again changes nothing. *)
Lemma trim_idempotent (s : jsstring) : trim (trim s) = trim s.
Proof.
  assert (H1 : trimStart (trim s) = trim s).
  { destruct (trim s) as [|c r] eqn:E; [reflexivity|].
    eapply trimStart_fixed; [reflexivity|]. eapply trim_head, E. }
  unfold trim at 1. rewrite H1. unfold trim, trimEnd.
  now rewrite rev_involutive, trimStart_idem.
Qed.

(** *** add *)

(** C1, as the code has it.  [addTodo] with a blank input leaves the
    state as it is; with any other input it appends exactly one task, so
    the count grows by one, and that task has the trimmed input as text,
    is not completed, and carries the id [crypto.randomUUID()] returned.
    Nothing compares that id with the ids of the collection: it is the id
    of no task of the collection before exactly when the value returned is
    none of them. *)
Theorem addTodo_spec (v : variant) (uuid : jsstring) (now : Z) st :
  (trim (newTodo st) = [] -> addTodo v uuid now st = st) /\
  (trim (newTodo st) <> [] ->
   exists t,
     todos (addTodo v uuid now st) = todos st ++ [t] /\
     length (todos (addTodo v uuid now st)) = S (length (todos st)) /\
     text t = trim (newTodo st) /\
     completed t = false /\
     id t = uuid /\
     ((forall t', t' ∈ todos st -> id t' <> id t) <->
      uuid ∉ map id (todos st))).
Proof.
  unfold addTodo. split.
  - intros E. rewrite E. reflexivity.
  - intros E. apply nonempty_true in E. rewrite E. cbn.
    eexists. split; [reflexivity|].
    rewrite length_app. cbn. repeat split; try lia.
    + intros H Hin. apply list_elem_of_fmap in Hin as (t' & E' & Ht').
      now apply (H t' Ht').
    + intros Hfresh t' Hin Heq. apply Hfresh. rewrite <- Heq.
      apply list_elem_of_fmap. now exists t'.
Qed.

(** *** toggle *)

Lemma toggle_step_twice i t :
  (let f := fun todo => if String_eqb (id todo) i then flip_completed todo
                        else todo in f (f t)) = t.
Proof.
  cbn. destruct (String_eqb (id t) i) eqn:E; cbn; rewrite ?E; [|reflexivity].
  destruct t as [a b c d]. unfold flip_completed. cbn.
  now rewrite negb_involutive.
Qed.

(** C10.  [toggleTodo] keeps the length and the positions; at every
    position the id, the text and the timestamp are those of before, and
    the completed flag is negated when the id is the given one and kept
    otherwise.  Toggling twice gives the collection back. *)
Theorem toggleTodo_frame i st :
  length (todos (toggleTodo i st)) = length (todos st) /\
  (forall n t, todos st !! n = Some t ->
     exists t', todos (toggleTodo i st) !! n = Some t' /\
       id t' = id t /\ text t' = text t /\ createdAt t' = createdAt t /\
       completed t' = if decide (id t = i) then negb (completed t)
                      else completed t) /\
  todos (toggleTodo i (toggleTodo i st)) = todos st.
Proof.
  unfold toggleTodo. cbn. split; [apply length_map|]. split.
  - intros n t Hn. eexists. split.
    + rewrite list_lookup_fmap, Hn. reflexivity.
    + unfold String_eqb. destruct (decide (id t = i)) as [E|E].
      * rewrite bool_decide_eq_true_2 by exact E. now cbn.
      * rewrite bool_decide_eq_false_2 by exact E. now cbn.
  - rewrite map_map. rewrite <- (map_id (todos st)) at 2.
    apply map_ext. intros t. apply toggle_step_twice.
Qed.

(** *** delete *)

Lemma In_filter {A} (f : A -> bool) (x : A) (l : list A) :
  x ∈ List.filter f l <-> x ∈ l /\ f x = true.
Proof. rewrite !list_elem_of_In. apply filter_In. Qed.

Lemma filter_all {A} (f : A -> bool) (l : list A) :
  (forall x, x ∈ l -> f x = true) -> List.filter f l = l.
Proof.
  induction l as [|a l IH]; intros H; [reflexivity|]. simpl.
  rewrite (H a) by constructor. f_equal. apply IH.
  intros x Hx. apply H. now constructor.
Qed.

Lemma filter_none {A} (f : A -> bool) (l : list A) :
  (forall x, x ∈ l -> f x = false) -> List.filter f l = [].
Proof.
  induction l as [|a l IH]; intros H; [reflexivity|]. simpl.
  rewrite (H a) by constructor. apply IH.
  intros x Hx. apply H. now constructor.
Qed.

Lemma filter_split_length {A} (f : A -> bool) (l : list A) :
  (length (List.filter (fun x => negb (f x)) l) + length (List.filter f l))%nat
  = length l.
Proof.
  induction l as [|a l IH]; [reflexivity|]. simpl.
  destruct (f a); simpl; lia.
Qed.

Lemma with_id_unique i l :
  NoDup (map id l) -> (exists t, t ∈ l /\ id t = i) -> length (with_id i l) = 1%nat.
Proof.
  unfold with_id. induction l as [|a l IH]; intros Hnd [t [Hin Hid]].
  - inversion Hin.
  - simpl in *. apply NoDup_cons in Hnd as [Hna Hnd].
    destruct (String_eqb (id a) i) eqn:E.
    + apply String_eqb_eq in E. simpl. f_equal.
      rewrite filter_none; [reflexivity|]. intros x Hx.
      apply not_true_iff_false. intros Hxi. apply String_eqb_eq in Hxi.
      apply Hna. rewrite E, <- Hxi. apply list_elem_of_fmap.
      now exists x.
    + apply String_eqb_neq in E. apply IH; [exact Hnd|].
      exists t. split; [|exact Hid].
      apply elem_of_cons in Hin as [->|Hin]; [contradiction|exact Hin].
Qed.

(** C8, as the code has it.  [deleteTodo] leaves the collection unchanged
    when no task has the id; in every case no task with the id remains and
    the count goes down by the number of tasks that had it, which is
    exactly one when some task has the id and the ids are pairwise
    distinct. *)
Theorem deleteTodo_spec st i :
  ((forall t, t ∈ todos st -> id t <> i) ->
   todos (deleteTodo i st) = todos st) /\
  (forall t, t ∈ todos (deleteTodo i st) -> id t <> i) /\
  (length (todos (deleteTodo i st)) + length (with_id i (todos st)))%nat
    = length (todos st) /\
  (NoDup (map id (todos st)) -> (exists t, t ∈ todos st /\ id t = i) ->
   S (length (todos (deleteTodo i st))) = length (todos st)).
Proof.
  unfold deleteTodo. cbn. repeat split.
  - intros H. apply filter_all. intros x Hx.
    apply negb_true_iff, String_eqb_neq. now apply H.
  - intros t Ht. apply In_filter in Ht as [_ Ht].
    now apply negb_true_iff, String_eqb_neq in Ht.
  - apply (filter_split_length (fun todo => String_eqb (id todo) i)).
  - intros Hnd Hex.
    pose proof (filter_split_length
                  (fun todo => String_eqb (id todo) i) (todos st)) as Hlen.
    pose proof (with_id_unique i (todos st) Hnd Hex) as H1.
    unfold with_id in H1. lia.
Qed.

(** *** clearCompleted *)

Lemma filter_sublist {A} (f : A -> bool) (l : list A) :
  List.filter f l `sublist_of` l.
Proof.
  induction l as [|a l IH]; simpl; [constructor|].
  destruct (f a); now constructor.
Qed.

Lemma sublist_into_filter {A} (f : A -> bool) (l' l : list A) :
  l' `sublist_of` l -> Forall (fun x => f x = true) l' ->
  l' `sublist_of` List.filter f l.
Proof.
  intros Hsub. induction Hsub as [|x l1 l2 _ IH|x l1 l2 _ IH]; intros Hall.
  - constructor.
  - apply Forall_cons in Hall as [Hx Hall]. simpl. rewrite Hx.
    constructor. now apply IH.
  - simpl. destruct (f x); [constructor|]; now apply IH.
Qed.

(** C5.  The "Clear completed" handler leaves a subsequence of the
    collection (so order and fields of what stays are untouched); a task
    is in it exactly when it was in the collection and is not completed;
    and every subsequence of incomplete tasks of the collection is a
    subsequence of it, so nothing incomplete, in any multiplicity, is
    dropped. *)
Theorem clearCompleted_spec st :
  todos (clearCompleted st) `sublist_of` todos st /\
  (forall t, t ∈ todos (clearCompleted st) <->
             t ∈ todos st /\ completed t = false) /\
  (forall t, t ∈ todos st -> completed t = true ->
             t ∉ todos (clearCompleted st)) /\
  (forall l', l' `sublist_of` todos st ->
              Forall (fun t => completed t = false) l' ->
              l' `sublist_of` todos (clearCompleted st)).
Proof.
  unfold clearCompleted. cbn. split; [|split; [|split]].
  - apply filter_sublist.
  - intros t. rewrite In_filter, negb_true_iff. reflexivity.
  - intros t _ Hc H. apply In_filter in H as [_ H]. rewrite Hc in H.
    discriminate.
  - intros l' Hsub Hall. apply sublist_into_filter; [exact Hsub|].
    eapply Forall_impl; [exact Hall|]. cbn. intros x ->. reflexivity.
Qed.

(** *** The view *)

Lemma sort_insert_perm t l : Permutation (sort_insert t l) (t :: l).
Proof.
  induction l as [|y r IH]; simpl; [reflexivity|].
  destruct (SortCompare t y <=? 0)%Z; [reflexivity|].
  rewrite IH. apply perm_swap.
Qed.

Lemma Array_sort_perm l : Permutation (Array_sort l) l.
Proof.
  induction l as [|x r IH]; simpl; [reflexivity|].
  rewrite sort_insert_perm. now constructor.
Qed.

Lemma SortCompare_le a b :
  stamped a -> stamped b -> (SortCompare a b <= 0)%Z -> view_le a b.
Proof.
  intros [ta Ha] [tb Hb]. unfold SortCompare, compareFn, view_le.
  rewrite Ha, Hb.
  destruct (completed a), (completed b); cbn; intros H; try lia.
  - right. split; [reflexivity|]. exists ta, tb. repeat split; lia.
  - right. split; [reflexivity|]. exists ta, tb. repeat split; lia.
Qed.

Lemma SortCompare_gt a b :
  stamped a -> stamped b -> (0 < SortCompare a b)%Z -> view_le b a.
Proof.
  intros [ta Ha] [tb Hb]. unfold SortCompare, compareFn, view_le.
  rewrite Ha, Hb.
  destruct (completed a), (completed b); cbn; intros H; try lia.
  - right. split; [reflexivity|]. exists tb, ta. repeat split; lia.
  - right. split; [reflexivity|]. exists tb, ta. repeat split; lia.
Qed.

Lemma view_le_trans a b c : view_le a b -> view_le b c -> view_le a c.
Proof.
  unfold view_le.
  intros [[H1 H2]|[H1 (ta & tb & Ha & Hb & Hab)]]
         [[H3 H4]|[H3 (tb' & tc & Hb' & Hc & Hbc)]].
  - congruence.
  - left. split; congruence.
  - left. split; congruence.
  - right. split; [congruence|]. exists ta, tc.
    assert (tb' = tb) by congruence. subst. repeat split; try assumption. lia.
Qed.

Lemma sort_insert_sorted t l :
  stamped t -> Forall stamped l ->
  StronglySorted view_le l -> StronglySorted view_le (sort_insert t l).
Proof.
  intros Ht Hall Hs. induction Hs as [|y r Hs IH Hy]; simpl.
  - repeat constructor.
  - apply Forall_cons in Hall as [Hsy Hall].
    destruct (SortCompare t y <=? 0)%Z eqn:E.
    + apply Z.leb_le in E. pose proof (SortCompare_le _ _ Ht Hsy E) as Hty.
      constructor; [now constructor|]. constructor; [exact Hty|].
      eapply Forall_impl; [exact Hy|]. intros z. now apply view_le_trans.
    + apply Z.leb_gt in E. constructor; [now apply IH|].
      apply List.Forall_forall. intros z Hz.
      apply (Permutation_in _ (sort_insert_perm t r)) in Hz as [<-|Hz].
      * now apply SortCompare_gt.
      * revert z Hz. now apply List.Forall_forall.
Qed.

Lemma Array_sort_sorted l :
  Forall stamped l -> StronglySorted view_le (Array_sort l).
Proof.
  induction l as [|x r IH]; simpl; intros Hall; [constructor|].
  apply Forall_cons in Hall as [Hx Hall].
  apply sort_insert_sorted; [exact Hx| |now apply IH].
  apply List.Forall_forall. intros z Hz.
  apply (Permutation_in _ (Array_sort_perm r)) in Hz.
  revert z Hz. now apply List.Forall_forall.
Qed.

(** The sort is the stable one: tasks the comparator does not separate
    keep their order. *)
Lemma sort_insert_stable (p : Todo -> bool) t l :
  (forall y, p t = true -> p y = true -> (SortCompare t y <= 0)%Z) ->
  List.filter p (sort_insert t l) = List.filter p (t :: l).
Proof.
  intros H. induction l as [|y r IH]; [reflexivity|]. simpl in *.
  destruct (SortCompare t y <=? 0)%Z eqn:E; [reflexivity|].
  apply Z.leb_gt in E. simpl. rewrite IH.
  destruct (p t) eqn:Et, (p y) eqn:Ey; try reflexivity.
  specialize (H y eq_refl Ey). lia.
Qed.

Lemma Array_sort_stable (p : Todo -> bool) l :
  (forall x y, p x = true -> p y = true -> (SortCompare x y <= 0)%Z) ->
  List.filter p (Array_sort l) = List.filter p l.
Proof.
  intros H. induction l as [|x r IH]; [reflexivity|]. simpl.
  rewrite sort_insert_stable by (intros y; apply H). simpl. now rewrite IH.
Qed.

Lemma In_view v f l t : t ∈ view v f l <-> t ∈ l /\ keeps f t = true.
Proof.
  unfold view, filteredTodos. cbn. destruct (sorts_view v).
  - rewrite <- In_filter. rewrite !list_elem_of_In. split.
    + apply Permutation_in, Array_sort_perm.
    + apply Permutation_in. symmetry. apply Array_sort_perm.
  - apply In_filter.
Qed.

(** C6.  In every variant and for every collection, a task is in
    [view('all')] exactly when it is in [view('active')] or in
    [view('completed')], and no task is in both of these. *)
Theorem view_partition v l t :
  (t ∈ view v Active l \/ t ∈ view v Completed l <-> t ∈ view v All l) /\
  ~ (t ∈ view v Active l /\ t ∈ view v Completed l).
Proof.
  rewrite !In_view. cbn. destruct (completed t); cbn; intuition congruence.
Qed.

(** C9, as the code has it.  In the two variants without sorting,
    [view('all')] is the collection in unchanged order.  In the variant
    with sorting it is a permutation of the collection, and, the tasks
    carrying their [createdAt], it is ordered by [completed] ascending,
    then by [createdAt] descending. *)
Theorem view_all_spec v l :
  (sorts_view v = false -> view v All l = l) /\
  (sorts_view v = true ->
   Permutation (view v All l) l /\
   (Forall stamped l -> StronglySorted view_le (view v All l))).
Proof.
  unfold view, filteredTodos. cbn. rewrite filter_true.
  split; intros ->.
  - reflexivity.
  - split; [apply Array_sort_perm|apply Array_sort_sorted].
Qed.

(** *** The edit session *)

(** C7, as the code has it.  In an edit session on the id [eid]: when
    [eid] is not the empty string and the draft is not blank, [saveEdit]
    ends the session and puts the trimmed draft as text into every task
    with that id, leaving every other task and the positions alone; when
    the draft is blank (or [eid] is empty) [saveEdit] changes nothing, so
    the session stays open; [cancelEdit] ends the session and leaves the
    collection alone. *)
Theorem saveEdit_cancelEdit_spec st eid :
  editingId st = Some eid ->
  (eid <> [] -> trim (editText st) <> [] ->
   editingId (saveEdit st) = None /\
   length (todos (saveEdit st)) = length (todos st) /\
   forall n t, todos st !! n = Some t ->
     todos (saveEdit st) !! n =
       Some (if decide (id t = eid) then with_text (trim (editText st)) t
             else t)) /\
  (eid = [] \/ trim (editText st) = [] -> saveEdit st = st) /\
  editingId (cancelEdit st) = None /\
  todos (cancelEdit st) = todos st.
Proof.
  intros He. unfold saveEdit, cancelEdit. rewrite He. cbn.
  split; [|split; [|split; reflexivity]].
  - intros H1 H2. apply nonempty_true in H1, H2. rewrite H1, H2. cbn.
    split; [reflexivity|]. split; [apply length_map|].
    intros n t Hn. rewrite list_lookup_fmap, Hn. cbn. f_equal.
    unfold String_eqb. destruct (decide (id t = eid)) as [E|E].
    + now rewrite bool_decide_eq_true_2.
    + now rewrite bool_decide_eq_false_2.
  - intros [H|H]; apply nonempty_false in H; rewrite H; [reflexivity|].
    now rewrite andb_false_r.
Qed.

(** *** The invariant along the events *)

Lemma Inv_nil : Inv [].
Proof. split; constructor. Qed.

Lemma Inv_filter (f : Todo -> bool) l : Inv l -> Inv (List.filter f l).
Proof.
  intros [Hnd Hall]. split.
  - eapply sublist_NoDup; [exact Hnd|].
    apply (fmap_sublist id), filter_sublist.
  - apply List.Forall_forall. intros x Hx.
    apply list_elem_of_In, In_filter in Hx as [Hx _].
    rewrite List.Forall_forall in Hall. now apply Hall, list_elem_of_In.
Qed.

Lemma Inv_map (f : Todo -> Todo) l :
  (forall t, id (f t) = id t) ->
  (forall t, text t <> [] -> text (f t) <> []) ->
  Inv l -> Inv (map f l).
Proof.
  intros Hid Htext [Hnd Hall]. split.
  - rewrite map_map. erewrite map_ext; [exact Hnd|]. exact Hid.
  - apply Forall_map. eapply Forall_impl; [exact Hall|]. exact Htext.
Qed.

Lemma Inv_snoc l t :
  Inv l -> id t ∉ map id l -> text t <> [] -> Inv (l ++ [t]).
Proof.
  intros [Hnd Hall] Hid Ht. split.
  - rewrite map_app. apply NoDup_app. split; [exact Hnd|]. split.
    + intros x Hx Hx'. cbn in Hx'. apply list_elem_of_singleton in Hx'.
      subst. contradiction.
    + cbn. apply NoDup_singleton.
  - apply Forall_app. split; [exact Hall|]. now constructor.
Qed.

Lemma step_Inv v st st' : Inv (todos st) -> step v st st' -> Inv (todos st').
Proof.
  intros HI Hstep. destruct Hstep; cbn; try exact HI.
  - unfold addTodo. destruct (nonempty (trim (newTodo st))) eqn:E; [|exact HI].
    cbn. apply Inv_snoc; [exact HI|assumption|]. cbn.
    now apply nonempty_true.
  - apply Inv_map; [| |exact HI]; intros t;
      destruct (String_eqb (id t) i); cbn; auto.
  - now apply Inv_filter.
  - unfold saveEdit. destruct (editingId st) as [eid|]; [|exact HI].
    destruct (truthy (Some eid) && nonempty (trim (editText st))) eqn:E;
      [|exact HI].
    apply andb_true_iff in E as [_ E]. apply nonempty_true in E.
    cbn. apply Inv_map; [| |exact HI]; intros t;
      destruct (String_eqb (id t) eid); cbn; auto.
  - now apply Inv_filter.
Qed.

(** *** The scenario of the specification

    From the empty collection: adding "Buy milk" shows one open task;
    toggling it gives the counts 0 active, 1 completed, 1 in total;
    clearing the completed ones empties the view. *)
Example scenario (v : variant) (uuid : list N) (now : Z) :
  let st0 := set_newTodo (str "Buy milk") (initial_state v) in
  let st1 := addTodo v uuid now st0 in
  let st2 := toggleTodo uuid st1 in
  let st3 := clearCompleted st2 in
  map (fun t => (text t, completed t)) (view v All (todos st1))
    = [(str "Buy milk", false)] /\
  (activeTodoCount st2, completedTodoCount st2, length (todos st2))
    = (0, 1, 1)%nat /\
  view v All (todos st3) = [].
Proof.
  intros st0 st1 st2 st3.
  pose (stamp := if has_createdAt v then Some now else None).
  assert (E1 : todos st1 = [mkTodo uuid (str "Buy milk") false stamp])
    by (destruct v; vm_compute; reflexivity).
  assert (E2 : todos st2 = [mkTodo uuid (str "Buy milk") true stamp]).
  { unfold st2, toggleTodo. cbn [todos set_todos]. rewrite E1.
    cbn [map id]. unfold String_eqb.
    now rewrite bool_decide_eq_true_2 by reflexivity. }
  assert (E3 : todos st3 = []).
  { unfold st3, clearCompleted. cbn [todos set_todos]. now rewrite E2. }
  split; [rewrite E1; destruct v; reflexivity|].
  split; [unfold activeTodoCount, completedTodoCount; now rewrite E2|].
  rewrite E3. destruct v; reflexivity.
Qed.

End Store.

(** ** Persistence *)

Section Persistence.
Import JSON.

(** *** Strings *)

Lemma hex_value_hex_char d : d < 16 -> hex_value (hex_char d) = Some d.
Proof.
  intros H. destruct d as [|p]; [reflexivity|].
  do 4 (destruct p as [p|p|]; try reflexivity); lia.
Qed.

Lemma hex4_UnicodeEscape c rest :
  c < 65536 ->
  parse_chars (UnicodeEscape c ++ rest) = push c (parse_chars rest).
Proof.
  intros H. unfold UnicodeEscape. cbn [app parse_chars].
  change (92 =? 34) with false. change (92 =? 92) with true.
  change (117 =? 117) with true. cbn match.
  unfold hex4. rewrite !hex_value_hex_char by (apply N.mod_upper_bound; lia).
  replace (4096 * (c / 4096 mod 16) + 256 * (c / 256 mod 16) +
           16 * (c / 16 mod 16) + c mod 16) with c; [reflexivity|].
  zify. Z.to_euclidean_division_equations. lia.
Qed.

Lemma is_leading_spec c : is_leading c = true <-> 55296 <= c <= 56319.
Proof. unfold is_leading. rewrite andb_true_iff, !N.leb_le. reflexivity. Qed.

Lemma is_trailing_spec c : is_trailing c = true <-> 56320 <= c <= 57343.
Proof. unfold is_trailing. rewrite andb_true_iff, !N.leb_le. reflexivity. Qed.

Lemma parse_chars_literal c x :
  c <> 34 -> c <> 92 -> 32 <= c -> parse_chars (c :: x) = push c (parse_chars x).
Proof.
  intros H1 H2 H3. cbn [parse_chars].
  rewrite (proj2 (N.eqb_neq c 34) H1), (proj2 (N.eqb_neq c 92) H2).
  now rewrite (proj2 (N.ltb_ge c 32) H3).
Qed.

Lemma parse_chars_quote_unit c x :
  is_leading c = false ->
  parse_chars (quote_unit c ++ x) = push c (parse_chars x).
Proof.
  intros L. unfold quote_unit.
  repeat match goal with
  | |- context [if ?a =? ?b then _ else _] =>
      destruct (N.eqb_spec a b) as [->|?]; [reflexivity|]
  end.
  rewrite L. destruct ((c <? 32) || false || is_trailing c) eqn:E.
  - apply hex4_UnicodeEscape. rewrite orb_false_r in E.
    apply orb_true_iff in E as [E|E];
      [apply N.ltb_lt in E|apply is_trailing_spec in E]; lia.
  - apply parse_chars_literal; try assumption.
    apply orb_false_iff in E as [E _]. rewrite orb_false_r in E.
    now apply N.ltb_ge in E.
Qed.

Lemma parse_chars_quote_units s rest :
  parse_chars (quote_units s ++ 34 :: rest) = Ok (s, rest).
Proof.
  remember (length s) as n eqn:Hn.
  assert (Hlen : (length s <= n)%nat) by lia. clear Hn.
  revert s Hlen rest. induction n as [|n IH]; intros [|c r] Hlen rest;
    try reflexivity; cbn in Hlen; [lia|].
  cbn [quote_units]. destruct (is_leading c) eqn:L.
  - assert (55296 <= c <= 56319) as Hc by (now apply is_leading_spec).
    destruct r as [|d r'].
    + rewrite hex4_UnicodeEscape by lia. reflexivity.
    + destruct (is_trailing d) eqn:T.
      * assert (56320 <= d <= 57343) as Hd by (now apply is_trailing_spec).
        cbn [app]. rewrite !parse_chars_literal by lia.
        rewrite IH by (cbn in Hlen; lia). reflexivity.
      * rewrite <- app_assoc, hex4_UnicodeEscape by lia.
        rewrite IH by lia. reflexivity.
  - rewrite <- app_assoc, parse_chars_quote_unit by exact L.
    rewrite IH by lia. reflexivity.
Qed.

Lemma dec_digits_value fuel n acc :
  n < 2 ^ N.of_nat fuel ->
  fold_left (fun a d => 10 * a + d) (dec_digits fuel n acc) 0
  = fold_left (fun a d => 10 * a + d) acc n.
Proof.
  revert n acc. induction fuel as [|f IH]; intros n acc H.
  - cbn in *. f_equal.
  - cbn [dec_digits]. destruct (N.ltb_spec n 10) as [Hlt|Hge].
    + cbn. f_equal.
    + rewrite IH.
      * cbn. f_equal. zify. Z.to_euclidean_division_equations. lia.
      * rewrite Nat2N.inj_succ, N.pow_succ_r' in H.
        enough (n / 10 <= n / 2) by
          (assert (n / 2 < 2 ^ N.of_nat f) by (apply N.Div0.div_lt_upper_bound; lia); lia).
        zify. Z.to_euclidean_division_equations. lia.
Qed.

Lemma dec_digits_small fuel n acc :
  Forall (fun d => d < 10) acc -> n < 2 ^ N.of_nat fuel ->
  Forall (fun d => d < 10) (dec_digits fuel n acc).
Proof.
  revert n acc. induction fuel as [|f IH]; intros n acc Ha H.
  - cbn in *. constructor; [lia|exact Ha].
  - cbn [dec_digits]. destruct (N.ltb_spec n 10) as [Hlt|Hge].
    + now constructor.
    + apply IH.
      * constructor; [|exact Ha]. apply N.mod_upper_bound. lia.
      * rewrite Nat2N.inj_succ, N.pow_succ_r' in H.
        enough (n / 10 <= n / 2) by
          (assert (n / 2 < 2 ^ N.of_nat f) by (apply N.Div0.div_lt_upper_bound; lia); lia).
        zify. Z.to_euclidean_division_equations. lia.
Qed.

(** The first digit is [0] only for the number [0]. *)
Lemma dec_digits_head fuel n acc :
  (acc <> [] -> 0 < n) ->
  exists d ds, dec_digits fuel n acc = d :: ds /\ (d = 0 -> n = 0 /\ ds = []).
Proof.
  revert n acc. induction fuel as [|f IH]; intros n acc H.
  - cbn. exists n, acc. split; [reflexivity|]. intros ->. split; [reflexivity|].
    destruct acc; [reflexivity|]. exfalso. assert (0 < 0) by (apply H; discriminate). lia.
  - cbn [dec_digits]. destruct (N.ltb_spec n 10) as [Hlt|Hge].
    + exists n, acc. split; [reflexivity|]. intros ->. split; [reflexivity|].
      destruct acc; [reflexivity|]. exfalso. assert (0 < 0) by (apply H; discriminate). lia.
    + destruct (IH (n / 10) (n mod 10 :: acc)) as (d & ds & E & Hd).
      * intros _. zify. Z.to_euclidean_division_equations. lia.
      * exists d, ds. split; [exact E|]. intros ->.
        destruct (Hd eq_refl) as [H0 _]. exfalso.
        zify. Z.to_euclidean_division_equations. lia.
Qed.

Lemma digits_of_value n : digits_value (digits_of n) = n.
Proof.
  unfold digits_value, digits_of. rewrite dec_digits_value; [reflexivity|].
  rewrite N2Nat.id. apply N.size_gt.
Qed.

Lemma digits_of_small n : Forall (fun d => d < 10) (digits_of n).
Proof.
  unfold digits_of. apply dec_digits_small; [constructor|].
  rewrite N2Nat.id. apply N.size_gt.
Qed.

Lemma digits_of_head n :
  exists d ds, digits_of n = d :: ds /\ (d = 0 -> n = 0 /\ ds = []).
Proof. unfold digits_of. apply dec_digits_head. congruence. Qed.

Lemma is_digit_digit_char d : d < 10 -> is_digit (digit_char d) = true.
Proof.
  intros H. unfold is_digit, digit_char.
  apply andb_true_iff. split; apply N.leb_le; lia.
Qed.

Lemma take_digits_chars ds c rest :
  Forall (fun d => d < 10) ds -> is_digit c = false ->
  take_digits (map digit_char ds ++ c :: rest) = (ds, c :: rest).
Proof.
  intros Hall Hc. induction Hall as [|d ds Hd _ IH]; cbn.
  - now rewrite Hc.
  - rewrite is_digit_digit_char by exact Hd. fold (digit_char d).
    rewrite IH. f_equal. f_equal. unfold digit_char. lia.
Qed.

Lemma parse_int_digits n rest :
  parse_int (map digit_char (digits_of n) ++ 125 :: rest)
  = Ok (digits_of n, 125 :: rest).
Proof.
  destruct (digits_of_head n) as (d & ds & E & Hd).
  pose proof (digits_of_small n) as Hsmall.
  rewrite E in *. apply Forall_cons in Hsmall as [Hd10 Hsmall].
  cbn [map app parse_int]. rewrite is_digit_digit_char by exact Hd10.
  destruct (N.eqb_spec (digit_char d) 48) as [E0|E0].
  - assert (d = 0) as -> by (unfold digit_char in E0; lia).
    destruct (Hd eq_refl) as [_ ->]. reflexivity.
  - rewrite take_digits_chars by (exact Hsmall || reflexivity).
    f_equal. f_equal. f_equal. unfold digit_char. lia.
Qed.

Lemma parse_unsigned_digits neg n rest :
  parse_unsigned neg (map digit_char (digits_of n) ++ 125 :: rest)
  = Ok (JNumber (if neg then - Z.of_N n else Z.of_N n) 0, 125 :: rest).
Proof.
  unfold parse_unsigned. rewrite parse_int_digits.
  cbn [bind]. unfold parse_fraction.
  change (125 =? 46) with false. cbn [bind]. unfold parse_exponent.
  change ((125 =? 101) || (125 =? 69)) with false. cbn [bind].
  unfold decimal_value. rewrite app_nil_r, digits_of_value. cbn [length].
  change (0 - Z.of_nat 0)%Z with 0%Z. cbn [Z.leb Z.compare].
  f_equal. f_equal. f_equal. lia.
Qed.

Lemma parse_number_toString z rest :
  parse_number (Number_toString z ++ 125 :: rest)
  = Ok (JNumber z 0, 125 :: rest).
Proof.
  unfold Number_toString, parse_number.
  destruct (Z.ltb_spec z 0) as [Hneg|Hpos].
  - cbn [app]. change (45 =? 45) with true.
    rewrite parse_unsigned_digits. do 3 f_equal. lia.
  - cbn [app].
    destruct (digits_of_head (Z.abs_N z)) as (d & ds & E & _).
    pose proof (digits_of_small (Z.abs_N z)) as Hsmall.
    pose proof (parse_unsigned_digits false (Z.abs_N z) rest) as H.
    rewrite E in *. apply Forall_cons in Hsmall as [Hd10 _].
    cbn [map app] in *.
    replace (digit_char d =? 45) with false
      by (symmetry; apply N.eqb_neq; unfold digit_char; lia).
    rewrite H. do 3 f_equal. lia.
Qed.

Lemma parse_value_string f s rest :
  parse_value (S f) (QuoteJSONString s ++ rest) = Ok (JString s, rest).
Proof.
  unfold QuoteJSONString. cbn [app]. rewrite <- app_assoc. cbn [app].
  cbn [parse_value skip_ws]. change (is_ws 34) with false. cbv iota.
  change (34 =? 123) with false. change (34 =? 91) with false.
  change (34 =? 34) with true. cbv iota.
  now rewrite parse_chars_quote_units.
Qed.

Lemma parse_value_bool f b rest :
  parse_value (S f) (stringify_bool b ++ rest) = Ok (JBool b, rest).
Proof. destruct b; reflexivity. Qed.

Lemma parse_value_number f z rest :
  parse_value (S f) (Number_toString z ++ 125 :: rest)
  = Ok (JNumber z 0, 125 :: rest).
Proof.
  rewrite <- parse_number_toString.
  assert (exists c r, Number_toString z ++ 125 :: rest = c :: r /\
                      (c = 45 \/ 48 <= c <= 57)) as (c & r & -> & Hc).
  { unfold Number_toString. destruct (z <? 0)%Z.
    - eexists _, _. split; [reflexivity|]. now left.
    - destruct (digits_of_head (Z.abs_N z)) as (d & ds & E & _).
      pose proof (digits_of_small (Z.abs_N z)) as Hsmall.
      rewrite E in *. apply Forall_cons in Hsmall as [Hd10 _].
      eexists _, _. split; [reflexivity|]. right. unfold digit_char. lia. }
  cbn [parse_value skip_ws].
  replace (is_ws c) with false
    by (symmetry; unfold is_ws; repeat (apply orb_false_iff; split);
        apply N.eqb_neq; lia).
  cbv iota.
  repeat match goal with
  | |- context [if c =? ?b then _ else _] =>
      replace (c =? b) with false by (symmetry; apply N.eqb_neq; lia)
  end.
  reflexivity.
Qed.

Lemma parse_value_S f s :
  parse_value (S f) s =
  match skip_ws s with
  | [] => SyntaxError
  | c :: r =>
      if c =? 123 then
        match head_is 125 (skip_ws r) with
        | Some r' => Ok (JObject [], r')
        | None => do (ms, r') <- parse_members f r; Ok (make_object ms, r')
        end
      else if c =? 91 then
        match head_is 93 (skip_ws r) with
        | Some r' => Ok (JArray [], r')
        | None => do (vs, r') <- parse_elements f r; Ok (JArray vs, r')
        end
      else if c =? 34 then
        do (str, r') <- parse_chars r; Ok (JString str, r')
      else if c =? 116 then
        do r' <- expect (tl lit_true) r; Ok (JBool true, r')
      else if c =? 102 then
        do r' <- expect (tl lit_false) r; Ok (JBool false, r')
      else if c =? 110 then
        do r' <- expect (tl lit_null) r; Ok (JNull, r')
      else parse_number (c :: r)
  end.
Proof. reflexivity. Qed.

Lemma parse_elements_S f s :
  parse_elements (S f) s =
  do (v, r) <- parse_value f s;
  match skip_ws r with
  | c :: r' =>
      if c =? 44 then
        do (vs, r'') <- parse_elements f r'; Ok (v :: vs, r'')
      else if c =? 93 then Ok ([v], r')
      else SyntaxError
  | [] => SyntaxError
  end.
Proof. reflexivity. Qed.

Lemma parse_members_S f s :
  parse_members (S f) s =
  match head_is 34 (skip_ws s) with
  | None => SyntaxError
  | Some r0 =>
      do (k, r1) <- parse_chars r0;
      match head_is 58 (skip_ws r1) with
      | None => SyntaxError
      | Some r2 =>
          do (v, r) <- parse_value f r2;
          match skip_ws r with
          | c :: r' =>
              if c =? 44 then
                do (ms, r'') <- parse_members f r';
                Ok ((k, v) :: ms, r'')
              else if c =? 125 then Ok ([(k, v)], r')
              else SyntaxError
          | [] => SyntaxError
          end
      end
  end.
Proof. reflexivity. Qed.

Lemma member_app k vs rest :
  member k vs ++ rest = 34 :: quote_units k ++ 34 :: 58 :: vs ++ rest.
Proof.
  unfold member, QuoteJSONString. cbn [app].
  now rewrite <- !app_assoc.
Qed.

Lemma parse_members_comma f k vs v rest :
  parse_value f (vs ++ 44 :: rest) = Ok (v, 44 :: rest) ->
  parse_members (S f) (member k vs ++ 44 :: rest)
  = do (ms, r) <- parse_members f rest; Ok ((k, v) :: ms, r).
Proof.
  intros Hv. rewrite member_app, parse_members_S. cbn [skip_ws].
  change (is_ws 34) with false. cbv iota. cbn [head_is].
  change (34 =? 34) with true. cbv iota.
  rewrite parse_chars_quote_units. cbn [bind skip_ws].
  change (is_ws 58) with false. cbv iota. cbn [head_is].
  change (58 =? 58) with true. cbv iota.
  rewrite Hv. reflexivity.
Qed.

Lemma parse_members_close f k vs v rest :
  parse_value f (vs ++ 125 :: rest) = Ok (v, 125 :: rest) ->
  parse_members (S f) (member k vs ++ 125 :: rest) = Ok ([(k, v)], rest).
Proof.
  intros Hv. rewrite member_app, parse_members_S. cbn [skip_ws].
  change (is_ws 34) with false. cbv iota. cbn [head_is].
  change (34 =? 34) with true. cbv iota.
  rewrite parse_chars_quote_units. cbn [bind skip_ws].
  change (is_ws 58) with false. cbv iota. cbn [head_is].
  change (58 =? 58) with true. cbv iota.
  rewrite Hv. reflexivity.
Qed.

Lemma member_not_close k vs rest :
  head_is 125 (skip_ws (member k vs ++ rest)) = None.
Proof. now rewrite member_app. Qed.

Lemma parse_value_todo f t rest :
  parse_value (6 + f) (stringify_todo t ++ rest) = Ok (toJS t, rest).
Proof.
  unfold stringify_todo, todo_members, toJS.
  change (6 + f)%nat with (S (S (S (S (S (S f)))))).
  destruct t as [i tx c [z|]]; cbn [createdAt id text completed app join_comma];
    rewrite <- !app_assoc; cbn [app]; rewrite <- !app_assoc; cbn [app];
    rewrite <- ?app_assoc; cbn [app];
    rewrite parse_value_S; cbn [skip_ws]; change (is_ws 123) with false;
    cbv iota; change (123 =? 123) with true; cbv iota;
    rewrite member_not_close.
  - rewrite (parse_members_comma _ _ _ _ _ (parse_value_string _ _ _)).
    rewrite (parse_members_comma _ _ _ _ _ (parse_value_string _ _ _)).
    rewrite (parse_members_comma _ _ _ _ _ (parse_value_bool _ _ _)).
    rewrite (parse_members_close _ _ _ _ _ (parse_value_number _ _ _)).
    reflexivity.
  - rewrite (parse_members_comma _ _ _ _ _ (parse_value_string _ _ _)).
    rewrite (parse_members_comma _ _ _ _ _ (parse_value_string _ _ _)).
    rewrite (parse_members_close _ _ _ _ _ (parse_value_bool _ _ _)).
    reflexivity.
Qed.

Lemma todo_not_close t rest :
  head_is 93 (skip_ws (stringify_todo t ++ rest)) = None.
Proof. reflexivity. Qed.

Lemma parse_elements_todos f t l rest :
  parse_elements (length l + 7 + f)
    (join_comma (map stringify_todo (t :: l)) ++ 93 :: rest)
  = Ok (map toJS (t :: l), rest).
Proof.
  revert t. induction l as [|t' l IH]; intros t.
  - cbn [length map join_comma Nat.add]. rewrite parse_elements_S.
    rewrite (parse_value_todo f). reflexivity.
  - change (length (t' :: l) + 7 + f)%nat with (S (length l + 7 + f)).
    change (join_comma (map stringify_todo (t :: t' :: l)))
      with (stringify_todo t ++ 44 :: join_comma (map stringify_todo (t' :: l))).
    rewrite <- app_assoc. cbn [app]. rewrite parse_elements_S.
    replace (length l + 7 + f)%nat with (6 + (length l + 1 + f))%nat at 1 by lia.
    rewrite parse_value_todo. cbn [bind skip_ws].
    change (is_ws 44) with false. cbv iota. change (44 =? 44) with true.
    cbv iota. rewrite IH. reflexivity.
Qed.

Lemma parse_value_todos f l rest :
  parse_value (length l + 7 + f) (stringify l ++ rest)
  = Ok (JArray (map toJS l), rest).
Proof.
  unfold stringify. destruct l as [|t l]; [reflexivity|].
  change (length (t :: l) + 7 + f)%nat with (S (length l + 7 + f)).
  cbn [app]. rewrite <- app_assoc. cbn [app]. rewrite parse_value_S.
  cbn [skip_ws]. change (is_ws 91) with false. cbv iota.
  change (91 =? 123) with false. change (91 =? 91) with true. cbv iota.
  change (join_comma (map stringify_todo (t :: l)))
    with (join_comma (stringify_todo t :: map stringify_todo l)).
  assert (head_is 93 (skip_ws (join_comma (stringify_todo t :: map stringify_todo l)
                               ++ 93 :: rest)) = None) as ->.
  { destruct (map stringify_todo l); [apply todo_not_close|].
    cbn [join_comma]. rewrite <- app_assoc. apply todo_not_close. }
  change (stringify_todo t :: map stringify_todo l)
    with (map stringify_todo (t :: l)).
  rewrite parse_elements_todos. reflexivity.
Qed.

Lemma stringify_length l : (2 * length l + 2 <= length (stringify l))%nat.
Proof.
  unfold stringify. cbn [length]. rewrite length_app. cbn [length].
  enough (2 * length l <= length (join_comma (map stringify_todo l)))%nat by lia.
  induction l as [|t l IH]; [cbn; lia|].
  assert (2 <= length (stringify_todo t))%nat as Ht.
  { unfold stringify_todo. cbn [length]. rewrite length_app. cbn [length]. lia. }
  cbn [map join_comma]. destruct (map stringify_todo l) eqn:E.
  - destruct l; [cbn; lia|discriminate].
  - rewrite length_app. cbn [length]. cbn [length] in IH. lia.
Qed.

(** [JSON.parse(JSON.stringify(todos))] returns the array of the tasks. *)
Lemma parse_stringify l : parse (stringify l) = Ok (JArray (map toJS l)).
Proof.
  destruct (decide (l = [])) as [->|Hne]; [reflexivity|].
  unfold parse. pose proof (stringify_length l) as Hlen.
  assert (1 <= length l)%nat by (destruct l; [congruence|cbn; lia]).
  replace (2 * length (stringify l) + 1)%nat
    with (length l + 7 + (2 * length (stringify l) + 1 - length l - 7))%nat
    by lia.
  rewrite <- (app_nil_r (stringify l)) at 2.
  rewrite parse_value_todos. reflexivity.
Qed.

Lemma as_todo_toJS t : as_todo (toJS t) = Some t.
Proof. destruct t as [i tx c [z|]]; reflexivity. Qed.

Lemma as_todos_toJS l : as_todos (JArray (map toJS l)) = Some l.
Proof.
  cbn. induction l as [|t l IH]; [reflexivity|].
  cbn [map as_todo_list]. now rewrite as_todo_toJS, IH.
Qed.

Lemma load_save l : load (save l) = SetTodos (JArray (map toJS l)).
Proof.
  unfold load, save. cbn [truthy]. unfold stringify at 1. cbn [nonempty].
  now rewrite parse_stringify.
Qed.

Lemma loaded_save l : loaded_todos (save l) = Some l.
Proof. unfold loaded_todos. rewrite load_save. apply as_todos_toJS. Qed.

(** *** The parser returns or throws *)

Lemma skip_ws_length s : (length (skip_ws s) <= length s)%nat.
Proof.
  induction s as [|c r IH]; cbn; [lia|]. destruct (is_ws c); cbn; lia.
Qed.

Lemma head_is_length c s r : head_is c s = Some r -> length s = S (length r).
Proof.
  destruct s as [|d s]; cbn; [discriminate|].
  destruct (d =? c); [|discriminate]. now intros [= ->].
Qed.

Lemma consumes_push c o s s' :
  consumes o s' -> (length s' <= length s)%nat -> consumes (push c o) s.
Proof. destruct o as [[v r]| |]; cbn; [lia|trivial|trivial]. Qed.

Lemma parse_chars_consumes s : consumes (parse_chars s) s.
Proof.
  remember (length s) as n eqn:Hn.
  assert (Hlen : (length s <= n)%nat) by lia. clear Hn.
  revert s Hlen. induction n as [|n IH]; intros [|c r] Hlen;
    try exact I; cbn in Hlen; [lia|].
  cbn [parse_chars]. destruct (c =? 34); [cbn; lia|].
  destruct (c =? 92).
  - destruct r as [|e r1]; [exact I|]. cbn in Hlen. destruct (e =? 117).
    + destruct r1 as [|h3 [|h2 [|h1 [|h0 r2]]]]; try exact I.
      destruct (hex4 h3 h2 h1 h0); [|exact I]. cbn in Hlen.
      eapply consumes_push; [apply IH; lia|cbn; lia].
    + destruct (simple_escape e); [|exact I].
      eapply consumes_push; [apply IH; lia|cbn; lia].
  - destruct (c <? 32); [exact I|].
    eapply consumes_push; [apply IH; lia|cbn; lia].
Qed.

Lemma take_digits_length s : (length (snd (take_digits s)) <= length s)%nat.
Proof.
  induction s as [|c r IH]; cbn; [lia|].
  destruct (is_digit c); [|cbn; lia].
  destruct (take_digits r) as [ds r']. cbn in *. lia.
Qed.

Lemma parse_int_consumes s : consumes (parse_int s) s.
Proof.
  destruct s as [|c r]; [exact I|]. cbn [parse_int].
  destruct (is_digit c); [|exact I]. destruct (c =? 48); [cbn; lia|].
  pose proof (take_digits_length r) as H.
  destruct (take_digits r) as [ds r']. cbn in *. lia.
Qed.

Lemma parse_fraction_keeps s : keeps_input (parse_fraction s) s.
Proof.
  destruct s as [|c r]; [cbn; lia|]. cbn [parse_fraction].
  destruct (c =? 46); [|cbn; lia].
  pose proof (take_digits_length r) as H.
  destruct (take_digits r) as [[|d ds] r']; cbn in *; [trivial|lia].
Qed.

Lemma parse_exp_digits_keeps neg s : keeps_input (parse_exp_digits neg s) s.
Proof.
  unfold parse_exp_digits. pose proof (take_digits_length s) as H.
  destruct (take_digits s) as [[|d ds] r2]; cbn in *; [trivial|lia].
Qed.

Lemma keeps_input_longer {A} (o : outcome (A * list N)) s s' :
  keeps_input o s' -> (length s' <= length s)%nat -> keeps_input o s.
Proof. destruct o as [[v r]| |]; cbn; [lia|trivial|trivial]. Qed.

Lemma parse_exponent_keeps s : keeps_input (parse_exponent s) s.
Proof.
  destruct s as [|c r]; [cbn; lia|]. cbn [parse_exponent].
  destruct ((c =? 101) || (c =? 69)); [|cbn; lia].
  destruct r as [|sg r']; [exact I|].
  destruct (sg =? 45); [|destruct (sg =? 43)];
    (eapply keeps_input_longer; [apply parse_exp_digits_keeps|cbn; lia]).
Qed.

Lemma parse_unsigned_consumes neg s : consumes (parse_unsigned neg s) s.
Proof.
  unfold parse_unsigned. pose proof (parse_int_consumes s) as H1.
  destruct (parse_int s) as [[int r1]| |]; try exact H1. cbn [bind].
  pose proof (parse_fraction_keeps r1) as H2.
  destruct (parse_fraction r1) as [[frac r2]| |]; try exact H2. cbn [bind].
  pose proof (parse_exponent_keeps r2) as H3.
  destruct (parse_exponent r2) as [[exp r3]| |]; try exact H3.
  cbn in *. lia.
Qed.

Lemma parse_number_consumes s : consumes (parse_number s) s.
Proof.
  destruct s as [|c r]; [exact I|]. cbn [parse_number].
  destruct (c =? 45); [|apply parse_unsigned_consumes].
  pose proof (parse_unsigned_consumes true r) as H.
  destruct (parse_unsigned true r) as [[v r']| |]; cbn in *; [lia|trivial|trivial].
Qed.

Lemma expect_keeps lit s :
  match expect lit s with
  | Ok r => (length r <= length s)%nat
  | SyntaxError => True
  | OutOfFuel => False
  end.
Proof.
  revert s. induction lit as [|c lit IH]; intros s; cbn; [lia|].
  destruct s as [|d r]; [exact I|]. destruct (d =? c); [|exact I].
  specialize (IH r). destruct (expect lit r); cbn in *; [lia|trivial|trivial].
Qed.

Lemma consumes_longer {A} (o : outcome (A * list N)) s s' :
  consumes o s' -> (length s' <= length s)%nat -> consumes o s.
Proof. destruct o as [[v r]| |]; cbn; [lia|trivial|trivial]. Qed.

Lemma parse_fuel_enough fuel :
  (forall s, (2 * length s + 1 <= fuel)%nat -> consumes (parse_value fuel s) s) /\
  (forall s, (2 * length s + 2 <= fuel)%nat -> consumes (parse_elements fuel s) s) /\
  (forall s, (2 * length s + 2 <= fuel)%nat -> consumes (parse_members fuel s) s).
Proof.
  induction fuel as [|f (IHv & IHe & IHm)]; [repeat split; intros; lia|].
  split; [|split]; intros s Hf.
  - rewrite parse_value_S. pose proof (skip_ws_length s) as Hs.
    destruct (skip_ws s) as [|c r]; [exact I|]. cbn in Hs.
    pose proof (skip_ws_length r) as Hr.
    destruct (c =? 123).
    { destruct (head_is 125 (skip_ws r)) as [r'|] eqn:E.
      - apply head_is_length in E. cbn. lia.
      - specialize (IHm r ltac:(lia)).
        destruct (parse_members f r) as [[ms r']| |]; cbn in *; [lia|trivial|trivial]. }
    destruct (c =? 91).
    { destruct (head_is 93 (skip_ws r)) as [r'|] eqn:E.
      - apply head_is_length in E. cbn. lia.
      - specialize (IHe r ltac:(lia)).
        destruct (parse_elements f r) as [[ms r']| |]; cbn in *; [lia|trivial|trivial]. }
    destruct (c =? 34).
    { pose proof (parse_chars_consumes r) as H.
      destruct (parse_chars r) as [[ms r']| |]; cbn in *; [lia|trivial|trivial]. }
    destruct (c =? 116).
    { pose proof (expect_keeps (tl lit_true) r) as H.
      destruct (expect (tl lit_true) r); cbn in *; [lia|trivial|trivial]. }
    destruct (c =? 102).
    { pose proof (expect_keeps (tl lit_false) r) as H.
      destruct (expect (tl lit_false) r); cbn in *; [lia|trivial|trivial]. }
    destruct (c =? 110).
    { pose proof (expect_keeps (tl lit_null) r) as H.
      destruct (expect (tl lit_null) r); cbn in *; [lia|trivial|trivial]. }
    eapply consumes_longer; [apply parse_number_consumes|cbn; lia].
  - rewrite parse_elements_S. specialize (IHv s ltac:(lia)).
    destruct (parse_value f s) as [[v r]| |]; try exact IHv.
    cbn [bind]. cbn in IHv. pose proof (skip_ws_length r) as Hr.
    destruct (skip_ws r) as [|c r']; [exact I|]. cbn in Hr.
    destruct (c =? 44).
    { specialize (IHe r' ltac:(lia)).
      destruct (parse_elements f r') as [[vs r'']| |]; cbn in *; [lia|trivial|trivial]. }
    destruct (c =? 93); cbn; [lia|trivial].
  - rewrite parse_members_S. pose proof (skip_ws_length s) as Hs.
    destruct (head_is 34 (skip_ws s)) as [r0|] eqn:E0; [|exact I].
    apply head_is_length in E0.
    pose proof (parse_chars_consumes r0) as Hk.
    destruct (parse_chars r0) as [[k r1]| |]; try exact Hk.
    cbn [bind]. cbn in Hk. pose proof (skip_ws_length r1) as H1.
    destruct (head_is 58 (skip_ws r1)) as [r2|] eqn:E2; [|exact I].
    apply head_is_length in E2.
    specialize (IHv r2 ltac:(lia)).
    destruct (parse_value f r2) as [[v r]| |]; try exact IHv.
    cbn [bind]. cbn in IHv. pose proof (skip_ws_length r) as Hr.
    destruct (skip_ws r) as [|c r']; [exact I|]. cbn in Hr.
    destruct (c =? 44).
    { specialize (IHm r' ltac:(lia)).
      destruct (parse_members f r') as [[vs r'']| |]; cbn in *; [lia|trivial|trivial]. }
    destruct (c =? 125); cbn; [lia|trivial].
Qed.

(** [JSON.parse] returns a value or throws [SyntaxError]: the recursion
    budget it is given always suffices. *)
Lemma parse_never_out_of_fuel s : parse s <> OutOfFuel.
Proof.
  unfold parse.
  pose proof (proj1 (parse_fuel_enough (2 * length s + 1)) s ltac:(lia)) as H.
  destruct (parse_value (2 * length s + 1) s) as [[v r]| |]; cbn in *;
    [|discriminate|contradiction].
  destruct (skip_ws r); discriminate.
Qed.
(** *** The model on known inputs *)

Example stringify_sample :
  stringify [done_task; open_task] =
  json_text
    "[{'id':'a','text':'done','completed':true,'createdAt':1},{'id':'b','text':'open','completed':false,'createdAt':2}]".
Proof. vm_compute. reflexivity. Qed.

Example stringify_escapes :
  QuoteJSONString [34; 92; 10; 31; 233; 55357; 56832; 56832] =
  json_text "'\'\\\n\u001f" ++ [233; 55357; 56832] ++ json_text "\ude00'".
Proof. vm_compute. reflexivity. Qed.

Example parse_accepts :
  map parse [json_text " [ ] "; json_text "-0.5e+2"; json_text "1E2";
             json_text "'\u0041\n\/'"; json_text "{'a':null,'b':[true,false],'a':0}"]
  = [Ok (JArray []); Ok (JNumber (-50) 0); Ok (JNumber 100 0);
     Ok (JString [65; 10; 47]);
     Ok (JObject [([97], JNumber 0 0);
                  ([98], JArray [JBool true; JBool false])])].
Proof. vm_compute. reflexivity. Qed.

Example parse_rejects :
  Forall (fun text => parse text = SyntaxError)
    [json_text ""; json_text "[1,]"; json_text "01"; json_text "1.";
     json_text "1e"; json_text "+1"; json_text ".5"; json_text "{'a':1,}";
     json_text "{a:1}"; json_text "'abc"; json_text "tru"; json_text "[1 2]";
     json_text "[1]x"; json_text "undefined"; json_text "'\x41'";
     [34; 9; 34]].
Proof. repeat constructor. Qed.

(** *** The load effect *)

Lemma load_not_set (savedTodos : Storage) :
  savedTodos = None \/ savedTodos = Some [] -> load savedTodos = NotSet.
Proof. intros [->| ->]; reflexivity. Qed.

Lemma load_text text :
  text <> [] ->
  load (Some text) = match parse text with
                     | Ok v => SetTodos v
                     | _ => Thrown
                     end.
Proof. intros H. unfold load. cbn. apply nonempty_true in H. now rewrite H. Qed.

(** C2, as the code has it.  The load effect leaves the collection empty
    and raises nothing when [getItem] returns [null] or the empty string.
    On any other text it calls [JSON.parse] with nothing to catch what it
    throws: the effect throws exactly when the text is not JSON, and
    otherwise stores the parsed value, whatever it is. *)
Theorem load_spec (savedTodos : Storage) :
  (savedTodos = None \/ savedTodos = Some [] ->
   load savedTodos = NotSet /\ loaded_todos savedTodos = Some []) /\
  (forall text, savedTodos = Some text -> text <> [] ->
   (load savedTodos = Thrown <-> parse text = SyntaxError) /\
   (forall v, load savedTodos = SetTodos v <-> parse text = Ok v) /\
   load savedTodos <> NotSet).
Proof.
  split.
  - intros H. unfold loaded_todos. now rewrite (load_not_set _ H).
  - intros text -> Hne. rewrite (load_text _ Hne).
    pose proof (parse_never_out_of_fuel text) as Hfuel.
    destruct (parse text) as [v| |]; [| |contradiction]; repeat split;
      try discriminate; try congruence.
Qed.

(** C3.  For every valid task collection, the text [save] writes is one
    on which [load] sets the collection to the array of those very tasks:
    reading it as tasks gives the collection back, every field included. *)
Theorem load_save_roundtrip l :
  valid_collection l ->
  load (save l) = SetTodos (JArray (map toJS l)) /\
  loaded_todos (save l) = Some l.
Proof. intros _. split; [apply load_save|apply loaded_save]. Qed.

(** C4, as the code has it.  The invariant (ids pairwise distinct, no
    empty text) holds of the initial collection; every event keeps it,
    [addTodo] under the contract of [crypto.randomUUID()] that the id is
    new; the load effect keeps it when the storage is empty or holds what
    [save] wrote for a collection with the invariant. *)
Theorem Inv_preserved :
  Inv [] /\
  (forall v st st', Inv (todos st) -> step v st st' -> Inv (todos st')) /\
  loaded_todos None = Some [] /\
  (forall l, Inv l -> loaded_todos (save l) = Some l).
Proof.
  split; [apply Inv_nil|]. split; [apply step_Inv|].
  split; [reflexivity|]. intros l _. apply loaded_save.
Qed.

End Persistence.

(** ** The sentences of the specification that the code does not follow *)

Section Counterexamples.

(** C1.  [crypto.randomUUID()] returns the id of a task of the
    collection: the task [addTodo] appends carries an id that is present
    in the prior collection. *)
Lemma addTodo_repeats_id :
  trim (newTodo collide_state) <> [] /\
  exists t t',
    todos (addTodo TaskMaster uuid_0 2000 collide_state)
      = todos collide_state ++ [t] /\
    t' ∈ todos collide_state /\ id t' = id t.
Proof.
  split; [vm_compute; discriminate|].
  eexists _, _. split; [reflexivity|]. split; [constructor|reflexivity].
Qed.

(** C2.  A stored text that is not JSON: the load effect throws, and the
    collection is not set to the empty one. *)
Lemma load_truncated_throws :
  load truncated_storage = Thrown /\ loaded_todos truncated_storage <> Some [].
Proof. split; [reflexivity|discriminate]. Qed.

Lemma twins_not_Inv : ~ Inv (todos twins).
Proof.
  intros [Hnd _]. cbn in Hnd. apply NoDup_cons in Hnd as [Hnd _].
  apply Hnd. constructor.
Qed.

(** C4.  Valid JSON for two tasks with the same id: the load effect
    turns the initial collection, which has the invariant, into one that
    has not. *)
Lemma load_breaks_Inv :
  Inv (todos (initial_state TaskMaster)) /\
  loaded_todos twins_storage = Some (todos twins) /\
  ~ Inv (todos twins).
Proof.
  split; [apply Inv_nil|]. split; [vm_compute; reflexivity|].
  apply twins_not_Inv.
Qed.

(** C7.  With a blank draft [saveEdit] does not end the session. *)
Lemma saveEdit_blank_stays :
  editingId blank_draft = Some (id open_task) /\
  editingId (saveEdit blank_draft) <> None.
Proof. split; [reflexivity|]. vm_compute. discriminate. Qed.

(** C8.  Two tasks share the id: deleting it takes the count down by
    two. *)
Lemma deleteTodo_twins :
  (exists t, t ∈ todos twins /\ id t = str "a") /\
  length (todos twins) = 2%nat /\
  length (todos (deleteTodo (str "a") twins)) = 0%nat /\
  S (length (todos (deleteTodo (str "a") twins))) <> length (todos twins).
Proof.
  split; [|split; [reflexivity|split; [reflexivity|discriminate]]].
  exists done_task. split; [constructor|reflexivity].
Qed.

(** C9.  The sorting variant moves a completed task behind an open one. *)
Lemma view_all_reorders :
  view TaskMaster All [done_task; open_task] = [open_task; done_task] /\
  view TaskMaster All [done_task; open_task] <> [done_task; open_task].
Proof. split; [reflexivity|discriminate]. Qed.

End Counterexamples.

(** ** The theorems at concrete inputs *)

Section Witnesses.

Lemma fresh_c : str "c" ∉ map id (todos sample_state).
Proof.
  intros H. apply list_elem_of_In in H. vm_compute in H.
  destruct H as [H|[H|[]]]; discriminate.
Defined.

Lemma sample_nonblank : trim (newTodo sample_state) <> [].
Proof. vm_compute. discriminate. Defined.

Lemma addTodo_spec_witness :
  trim (newTodo sample_state) <> [] /\
  (str "c" ∉ map id (todos sample_state)) /\
  exists t,
    todos (addTodo TaskMaster (str "c") 1700000000000 sample_state)
      = todos sample_state ++ [t] /\
    text t = str "Buy milk" /\ completed t = false /\ id t = str "c" /\
    forall t', t' ∈ todos sample_state -> id t' <> id t.
Proof.
  split; [exact sample_nonblank|]. split; [exact fresh_c|].
  destruct (proj2 (addTodo_spec TaskMaster (str "c") 1700000000000
                     sample_state) sample_nonblank)
    as (t & E & _ & Ht & Hc & Hi & Hfresh).
  exists t. repeat split; try assumption. apply Hfresh. exact fresh_c.
Defined.

Lemma toggleTodo_frame_witness :
  todos sample_state !! 1%nat = Some open_task /\
  exists t', todos (toggleTodo (str "b") sample_state) !! 1%nat = Some t' /\
             completed t' = true.
Proof.
  split; [reflexivity|].
  destruct (toggleTodo_frame (str "b") sample_state) as (_ & H & _).
  destruct (H 1%nat open_task eq_refl) as (t' & E & _ & _ & _ & Hc).
  exists t'. split; [exact E|]. rewrite Hc. reflexivity.
Defined.

Lemma deleteTodo_spec_witness :
  NoDup (map id (todos sample_state)) /\
  (exists t, t ∈ todos sample_state /\ id t = str "b") /\
  S (length (todos (deleteTodo (str "b") sample_state)))
    = length (todos sample_state).
Proof.
  assert (H1 : NoDup (map id (todos sample_state))).
  { cbn. apply NoDup_cons. split.
    - intros H. apply list_elem_of_singleton in H. discriminate.
    - apply NoDup_singleton. }
  assert (H2 : exists t, t ∈ todos sample_state /\ id t = str "b").
  { exists open_task. split; [|reflexivity]. cbn. apply elem_of_cons.
    right. constructor. }
  split; [exact H1|]. split; [exact H2|].
  exact (proj2 (proj2 (proj2 (deleteTodo_spec sample_state (str "b")))) H1 H2).
Defined.

Lemma clearCompleted_spec_witness :
  ([open_task] `sublist_of` todos sample_state) /\
  Forall (fun t => completed t = false) [open_task] /\
  ([open_task] `sublist_of` todos (clearCompleted sample_state)).
Proof.
  assert (H1 : [open_task] `sublist_of` todos sample_state).
  { cbn. apply sublist_cons. apply sublist_skip. constructor. }
  assert (H2 : Forall (fun t => completed t = false) [open_task]).
  { repeat constructor. }
  split; [exact H1|]. split; [exact H2|].
  exact (proj2 (proj2 (proj2 (clearCompleted_spec sample_state))) _ H1 H2).
Defined.

Lemma view_all_spec_witness :
  sorts_view TaskMaster = true /\
  Forall stamped [done_task; open_task] /\
  StronglySorted view_le (view TaskMaster All [done_task; open_task]).
Proof.
  assert (H : Forall stamped [done_task; open_task]).
  { repeat constructor; eexists; reflexivity. }
  split; [reflexivity|]. split; [exact H|].
  exact (proj2 (proj2 (view_all_spec TaskMaster [done_task; open_task])
                  eq_refl) H).
Defined.

Lemma saveEdit_cancelEdit_spec_witness :
  editingId sample_state = Some (str "b") /\
  str "b" <> [] /\ trim (editText sample_state) <> [] /\
  editingId (saveEdit sample_state) = None.
Proof.
  assert (H1 : str "b" <> []) by discriminate.
  assert (H2 : trim (editText sample_state) <> []) by (vm_compute; discriminate).
  split; [reflexivity|]. split; [exact H1|]. split; [exact H2|].
  exact (proj1 (proj1 (saveEdit_cancelEdit_spec sample_state (str "b") eq_refl)
                  H1 H2)).
Defined.

Lemma load_spec_witness :
  truncated_storage = Some (str "[{") /\ str "[{" <> [] /\
  (load truncated_storage = Thrown <-> JSON.parse (str "[{") = JSON.SyntaxError).
Proof.
  assert (H : str "[{" <> []) by discriminate.
  split; [reflexivity|]. split; [exact H|].
  exact (proj1 (proj2 (load_spec truncated_storage) (str "[{") eq_refl H)).
Defined.

Lemma sample_valid : valid_collection (todos sample_state).
Proof.
  split; [split|].
  - cbn. apply NoDup_cons. split.
    + intros H. apply list_elem_of_singleton in H. discriminate.
    + apply NoDup_singleton.
  - repeat constructor; discriminate.
  - repeat constructor; cbn; lia.
Defined.

Lemma load_save_roundtrip_witness :
  valid_collection (todos sample_state) /\
  loaded_todos (save (todos sample_state)) = Some (todos sample_state).
Proof.
  split; [exact sample_valid|].
  exact (proj2 (load_save_roundtrip (todos sample_state) sample_valid)).
Defined.

Lemma Inv_preserved_witness :
  Inv (todos sample_state) /\
  step TaskMaster sample_state (deleteTodo (str "a") sample_state) /\
  Inv (todos (deleteTodo (str "a") sample_state)).
Proof.
  split; [exact (proj1 sample_valid)|]. split; [constructor|].
  exact (proj1 (proj2 Inv_preserved) TaskMaster sample_state _
           (proj1 sample_valid) (step_delete _ _ (str "a"))).
Defined.

End Witnesses.

(** ** More of the component: counters and buttons *)

Section Counts.

Implicit Types (st : AppState) (l : list Todo) (t : Todo) (i : list N).

Lemma state_eq st l : todos st = l -> set_todos l st = st.
Proof. intros <-. now destruct st. Qed.

Lemma filter_length_le {A} (f : A -> bool) (l : list A) :
  (length (List.filter f l) <= length l)%nat.
Proof. induction l as [|a l IH]; cbn; [lia|]. destruct (f a); cbn; lia. Qed.

Lemma filter_length_all {A} (f : A -> bool) (l : list A) :
  length (List.filter f l) = length l -> List.filter f l = l.
Proof.
  induction l as [|a l IH]; cbn; [reflexivity|].
  pose proof (filter_length_le f l) as Hle. destruct (f a); cbn; intros Hl.
  - f_equal. apply IH. lia.
  - lia.
Qed.

(** X1.  The two counters split the collection: their sum is its length,
    so the difference the third variant shows beside "completed" is the
    number of completed tasks the first variant counts. *)
Theorem counts_total st :
  (activeTodoCount st + completedTodoCount st)%nat = length (todos st) /\
  completed_badge st = completedTodoCount st.
Proof.
  pose proof (filter_split_length completed (todos st)) as H.
  unfold completed_badge, activeTodoCount, completedTodoCount.
  erewrite (filter_ext (fun todo => completed todo) completed) by reflexivity.
  lia.
Qed.

(** X2.  In every variant the list under a tab has as many rows as the
    number beside the tab says: all tasks, the active ones, the completed
    ones; and the empty-state message shows exactly when that number is
    zero. *)
Theorem filteredTodos_length v st :
  length (filteredTodos v st) =
    match filter st with
    | All => length (todos st)
    | Active => activeTodoCount st
    | Completed => completedTodoCount st
    end /\
  (shows_empty_state v st = true <-> length (filteredTodos v st) = 0%nat).
Proof.
  split.
  - unfold filteredTodos, activeTodoCount, completedTodoCount.
    assert (length (if sorts_view v
                    then Array_sort (List.filter (keeps (filter st)) (todos st))
                    else List.filter (keeps (filter st)) (todos st))
            = length (List.filter (keeps (filter st)) (todos st))) as ->.
    { destruct (sorts_view v); [|reflexivity].
      apply Permutation_length, Array_sort_perm. }
    destruct (filter st); cbn [keeps];
      [now rewrite filter_true|reflexivity|reflexivity].
  - unfold shows_empty_state. destruct (filteredTodos v st); cbn; split;
      (reflexivity || discriminate || lia || congruence).
Qed.

(** X3.  The add button is disabled exactly when [addTodo] would leave
    the state as it is. *)
Theorem add_disabled_iff v uuid now st :
  add_disabled st = true <-> addTodo v uuid now st = st.
Proof.
  unfold add_disabled, addTodo.
  destruct (nonempty (trim (newTodo st))); cbn; split; try reflexivity;
    try discriminate.
  intros H. apply (f_equal (fun s => length (todos s))) in H. cbn in H.
  rewrite length_app in H. cbn in H. lia.
Qed.

Lemma completed_count_pos l :
  (0 < length (List.filter (fun todo => completed todo) l))%nat <->
  existsb completed l = true.
Proof.
  induction l as [|a l IH]; cbn; [split; [lia|discriminate]|].
  destruct (completed a); cbn; [split; [reflexivity|lia]|exact IH].
Qed.

(** X4.  The two variants that render a "Clear completed" button render
    it under the same condition, and that is exactly when a click on it
    removes at least one task. *)
Theorem clear_shown_iff st :
  clear_shown TaskMaster st = clear_shown Classic st /\
  (clear_shown TaskMaster st = true <->
   (length (todos (clearCompleted st)) < length (todos st))%nat) /\
  (clear_shown TaskMaster st = false -> clearCompleted st = st).
Proof.
  pose proof (filter_split_length completed (todos st)) as Hsplit.
  assert (Hc : completedTodoCount st
               = length (List.filter completed (todos st))).
  { reflexivity. }
  unfold clear_shown, clearCompleted. cbn [todos set_todos]. rewrite Hc.
  split; [|split].
  - f_equal. apply eq_true_iff_eq.
    rewrite Nat.ltb_lt, <- (completed_count_pos (todos st)). reflexivity.
  - rewrite andb_true_iff, !Nat.ltb_lt. lia.
  - intros H. apply state_eq. symmetry. apply filter_length_all.
    apply andb_false_iff in H. rewrite !Nat.ltb_ge in H. lia.
Qed.

(** X5.  After "Clear completed" no completed task is left, the active
    ones are all still there, so the collection has as many tasks as were
    active, and a second click changes nothing. *)
Theorem clearCompleted_counts st :
  completedTodoCount (clearCompleted st) = 0%nat /\
  activeTodoCount (clearCompleted st) = activeTodoCount st /\
  length (todos (clearCompleted st)) = activeTodoCount st /\
  clearCompleted (clearCompleted st) = clearCompleted st.
Proof.
  unfold completedTodoCount, activeTodoCount, clearCompleted.
  cbn [todos set_todos].
  assert (H : forall l, List.filter (fun todo => negb (completed todo))
                 (List.filter (fun todo => negb (completed todo)) l)
               = List.filter (fun todo => negb (completed todo)) l).
  { intros l. apply filter_all. intros x Hx. now apply In_filter in Hx. }
  repeat split.
  - rewrite filter_none; [reflexivity|]. intros x Hx.
    apply In_filter in Hx as [_ Hx]. now apply negb_true_iff in Hx.
  - now rewrite H.
  - unfold set_todos. cbn. now rewrite H.
Qed.

End Counts.

(** ** More of the component: how events compose *)

Section Events.

Implicit Types (st : AppState) (l : list Todo) (t : Todo) (i : list N).

(** X6.  A task added with a non-blank input counts as active: the active
    count goes up by one, the completed count stays, and the task is shown
    under "all" and "active" and not under "completed". *)
Theorem addTodo_counts v uuid now st :
  trim (newTodo st) <> [] ->
  activeTodoCount (addTodo v uuid now st) = S (activeTodoCount st) /\
  completedTodoCount (addTodo v uuid now st) = completedTodoCount st /\
  exists t, todos (addTodo v uuid now st) = todos st ++ [t] /\
    t ∈ view v All (todos (addTodo v uuid now st)) /\
    t ∈ view v Active (todos (addTodo v uuid now st)) /\
    t ∉ view v Completed (todos (addTodo v uuid now st)).
Proof.
  intros H. apply nonempty_true in H.
  unfold addTodo, activeTodoCount, completedTodoCount. rewrite H.
  cbn [todos set_todos set_newTodo]. rewrite !List.filter_app, !length_app. cbn.
  split; [lia|]. split; [lia|]. eexists. split; [reflexivity|].
  rewrite !In_view. cbn. repeat split.
  - apply elem_of_app. right. constructor.
  - apply elem_of_app. right. constructor.
  - intros [_ Hc]. discriminate.
Qed.

Lemma map_absent (f : Todo -> Todo) i l :
  (forall t, t ∈ l -> id t <> i) ->
  map (fun todo => if String_eqb (id todo) i then f todo else todo) l = l.
Proof.
  intros H. induction l as [|a l IH]; [reflexivity|]. cbn.
  rewrite (proj2 (String_eqb_neq (id a) i)) by (apply H; constructor).
  f_equal. apply IH. intros t Ht. apply H. now constructor.
Qed.

Lemma missing_absent st i :
  (forall t, t ∈ todos st -> id t <> i) ->
  editingId st = Some i -> todos (saveEdit st) = todos st.
Proof.
  intros H He. unfold saveEdit. rewrite He.
  destruct (truthy (Some i) && nonempty (trim (editText st)));
    [|reflexivity].
  cbn. now apply map_absent.
Qed.

(** X7.  Operations on an id no task has are silent no-ops: [toggleTodo]
    leaves the state as it is, and [saveEdit], whatever the draft, leaves
    the collection as it is.  This is what happens to an edit session whose
    task was deleted or cleared in the meantime. *)
Theorem missing_id_noop st i :
  (forall t, t ∈ todos st -> id t <> i) ->
  toggleTodo i st = st /\
  (editingId st = Some i -> todos (saveEdit st) = todos st).
Proof.
  intros H. split.
  - unfold toggleTodo. apply state_eq. symmetry. now apply map_absent.
  - intros He. unfold saveEdit. rewrite He.
    destruct (truthy (Some i) && nonempty (trim (editText st)));
      [|reflexivity].
    cbn. now apply map_absent.
Qed.

(** X8.  Removing the task that is being edited does not end the edit
    session: after [deleteTodo], and after "Clear completed" when the
    task is completed, [editingId] still holds the id, which no task of the
    collection has any more; a later [saveEdit] then changes no task,
    whatever the draft. *)
Theorem saveEdit_after_removal st i :
  editingId st = Some i ->
  (editingId (deleteTodo i st) = Some i /\
   (forall t, t ∈ todos (deleteTodo i st) -> id t <> i) /\
   todos (saveEdit (deleteTodo i st)) = todos (deleteTodo i st)) /\
  ((forall t, t ∈ todos st -> id t = i -> completed t = true) ->
   editingId (clearCompleted st) = Some i /\
   (forall t, t ∈ todos (clearCompleted st) -> id t <> i) /\
   todos (saveEdit (clearCompleted st)) = todos (clearCompleted st)).
Proof.
  intros He.
  assert (Hd : forall t, t ∈ todos (deleteTodo i st) -> id t <> i).
  { intros t Ht. apply In_filter in Ht as [_ Ht].
    now apply negb_true_iff, String_eqb_neq in Ht. }
  split; [|intros Hc].
  - split; [exact He|]. split; [exact Hd|].
    apply (missing_absent (deleteTodo i st) i Hd). exact He.
  - assert (Hk : forall t, t ∈ todos (clearCompleted st) -> id t <> i).
    { intros t Ht E. apply In_filter in Ht as [Hin Ht].
      rewrite (Hc t Hin E) in Ht. discriminate. }
    split; [exact He|]. split; [exact Hk|].
    apply (missing_absent (clearCompleted st) i Hk). exact He.
Qed.

Lemma unique_in l t x :
  NoDup (map id l) -> t ∈ l -> x ∈ l -> id x = id t -> x = t.
Proof.
  induction l as [|a l IH]; intros Hnd Ht Hx E; [inversion Ht|].
  cbn in Hnd. apply NoDup_cons in Hnd as [Hna Hnd].
  apply elem_of_cons in Ht as [->|Ht], Hx as [->|Hx]; try reflexivity.
  - exfalso. apply Hna. rewrite <- E. apply list_elem_of_fmap. now exists x.
  - exfalso. apply Hna. rewrite E. apply list_elem_of_fmap. now exists t.
  - now apply IH.
Qed.

Lemma toggle_count l t :
  NoDup (map id l) -> t ∈ l ->
  let l' := map (fun todo => if String_eqb (id todo) (id t)
                             then flip_completed todo else todo) l in
  (length (List.filter (fun todo => negb (completed todo)) l')
   + (if completed t then 0 else 1))%nat
  = (length (List.filter (fun todo => negb (completed todo)) l)
     + (if completed t then 1 else 0))%nat.
Proof.
  induction l as [|a l IH]; intros Hnd Ht; [inversion Ht|].
  cbn in Hnd. apply NoDup_cons in Hnd as [Hna Hnd]. cbn.
  destruct (String_eqb (id a) (id t)) eqn:E.
  - apply String_eqb_eq in E.
    assert (a = t) as ->.
    { apply elem_of_cons in Ht as [->|Ht]; [reflexivity|].
      exfalso. apply Hna. rewrite E. apply list_elem_of_fmap. now exists t. }
    rewrite map_absent.
    + cbn. destruct (completed t); cbn; lia.
    + intros x Hx Hxt. apply Hna. rewrite <- Hxt.
      apply list_elem_of_fmap. now exists x.
  - apply String_eqb_neq in E.
    apply elem_of_cons in Ht as [->|Ht]; [congruence|].
    specialize (IH Hnd Ht). cbn in IH.
    destruct (completed a); cbn; lia.
Qed.

(** X9.  With ids pairwise distinct, toggling an open task moves one from
    the active count to the completed count, and toggling a completed one
    moves it back; the total never changes. *)
Theorem toggleTodo_counts st t :
  NoDup (map id (todos st)) -> t ∈ todos st ->
  length (todos (toggleTodo (id t) st)) = length (todos st) /\
  (completed t = false ->
   S (activeTodoCount (toggleTodo (id t) st)) = activeTodoCount st /\
   completedTodoCount (toggleTodo (id t) st) = S (completedTodoCount st)) /\
  (completed t = true ->
   activeTodoCount (toggleTodo (id t) st) = S (activeTodoCount st) /\
   S (completedTodoCount (toggleTodo (id t) st)) = completedTodoCount st).
Proof.
  intros Hnd Ht.
  pose proof (toggle_count _ _ Hnd Ht) as Hc. cbn in Hc.
  pose proof (filter_split_length completed (todos st)) as H1.
  pose proof (filter_split_length completed (todos (toggleTodo (id t) st)))
    as H2.
  assert (Hl : length (todos (toggleTodo (id t) st)) = length (todos st))
    by apply length_map.
  unfold activeTodoCount, completedTodoCount.
  change (fun todo : Todo => completed todo) with completed.
  unfold toggleTodo in *. cbn [todos set_todos] in *.
  split; [exact Hl|]. split; intros E; rewrite E in Hc; lia.
Qed.

(** X10.  Deleting the task that was just added gives the collection back,
    the id [crypto.randomUUID()] returned being new. *)
Theorem add_then_delete v uuid now st :
  uuid ∉ map id (todos st) ->
  todos (deleteTodo uuid (addTodo v uuid now st)) = todos st.
Proof.
  intros Hfresh. unfold deleteTodo, addTodo.
  assert (Hold : List.filter (fun todo => negb (String_eqb (id todo) uuid))
                   (todos st) = todos st).
  { apply filter_all. intros x Hx. apply negb_true_iff, String_eqb_neq.
    intros E. apply Hfresh. rewrite <- E. apply list_elem_of_fmap.
    now exists x. }
  destruct (nonempty (trim (newTodo st))); cbn [todos set_todos set_newTodo].
  - rewrite List.filter_app, Hold. cbn. unfold String_eqb.
    rewrite bool_decide_eq_true_2 by reflexivity. cbn. apply app_nil_r.
  - exact Hold.
Qed.

Lemma filter_comm {A} (f g : A -> bool) (l : list A) :
  List.filter f (List.filter g l) = List.filter g (List.filter f l).
Proof.
  induction l as [|a l IH]; [reflexivity|]. cbn.
  destruct (f a) eqn:Ef, (g a) eqn:Eg; cbn; rewrite ?Ef, ?Eg, IH; reflexivity.
Qed.

Lemma filter_map_id (p : Todo -> bool) (f : Todo -> Todo) l :
  (forall t, p (f t) = p t) ->
  List.filter p (map f l) = map f (List.filter p l).
Proof.
  intros H. induction l as [|a l IH]; [reflexivity|]. cbn.
  rewrite H. destruct (p a); cbn; now rewrite IH.
Qed.

(** X11.  The order of two clicks on different rows does not matter:
    deletions commute with each other, with toggles and with "Clear
    completed" (on the whole state), and two toggles commute. *)
Theorem events_commute st i j :
  deleteTodo i (deleteTodo j st) = deleteTodo j (deleteTodo i st) /\
  deleteTodo i (toggleTodo j st) = toggleTodo j (deleteTodo i st) /\
  deleteTodo i (clearCompleted st) = clearCompleted (deleteTodo i st) /\
  toggleTodo i (toggleTodo j st) = toggleTodo j (toggleTodo i st).
Proof.
  unfold deleteTodo, toggleTodo, clearCompleted, set_todos.
  cbn [todos newTodo filter editingId editText].
  repeat split; f_equal.
  - apply filter_comm.
  - apply filter_map_id. intros t. now destruct (String_eqb (id t) j).
  - apply filter_comm.
  - rewrite !map_map. apply map_ext. intros t.
    destruct (String_eqb (id t) j) eqn:Ej, (String_eqb (id t) i) eqn:Ei;
      cbn; rewrite ?Ej, ?Ei; reflexivity.
Qed.

(** X12.  [saveEdit] touches nothing but texts: the collection keeps its
    length, and the ids, completed flags and creation times stay where
    they are, so both counters stay too. *)
Theorem saveEdit_frame st :
  map (fun t => (id t, completed t, createdAt t)) (todos (saveEdit st))
  = map (fun t => (id t, completed t, createdAt t)) (todos st) /\
  length (todos (saveEdit st)) = length (todos st) /\
  activeTodoCount (saveEdit st) = activeTodoCount st /\
  completedTodoCount (saveEdit st) = completedTodoCount st.
Proof.
  assert (H : forall p : Todo -> bool, forall eid s,
            (forall t s', p (with_text s' t) = p t) ->
            List.filter p (map (fun todo => if String_eqb (id todo) eid
                                then with_text s todo else todo) (todos st))
            = map (fun todo => if String_eqb (id todo) eid
                               then with_text s todo else todo)
                  (List.filter p (todos st))).
  { intros p eid s Hp. apply filter_map_id. intros t.
    destruct (String_eqb (id t) eid); [apply Hp|reflexivity]. }
  unfold saveEdit, activeTodoCount, completedTodoCount.
  destruct (editingId st) as [eid|]; [|repeat split].
  destruct (truthy (Some eid) && nonempty (trim (editText st)));
    [|repeat split].
  cbn [todos set_todos set_editingId]. repeat split.
  - rewrite map_map. apply map_ext. intros t.
    now destruct (String_eqb (id t) eid).
  - apply length_map.
  - rewrite H by reflexivity. apply length_map.
  - rewrite H by reflexivity. apply length_map.
Qed.

(** X13.  Opening a task for editing and saving without touching the
    draft changes nothing in the collection and ends the session, when the
    ids are pairwise distinct and the task's text is as [addTodo] and
    [saveEdit] leave texts: not empty and trimmed. *)
Theorem edit_untouched st t :
  NoDup (map id (todos st)) -> t ∈ todos st ->
  id t <> [] -> text t <> [] -> trim (text t) = text t ->
  todos (saveEdit (startEditing t st)) = todos st /\
  editingId (saveEdit (startEditing t st)) = None.
Proof.
  intros Hnd Ht Hi Hx Htrim. unfold saveEdit, startEditing.
  cbn [editingId set_editText set_editingId editText todos truthy].
  rewrite Htrim. apply nonempty_true in Hi, Hx. rewrite Hi, Hx.
  cbn. split; [|reflexivity].
  rewrite <- (map_id (todos st)) at 2. apply map_ext_in. intros x Hx'.
  destruct (String_eqb (id x) (id t)) eqn:E; [|reflexivity].
  apply String_eqb_eq in E.
  assert (x = t) as -> by (eapply unique_in; eauto; now apply list_elem_of_In).
  now destruct t.
Qed.

End Events.

(** ** More of the component: what sessions keep *)

Section Runs.

Implicit Types (st : AppState) (l : list Todo) (t : Todo) (i : list N).

(** *** Texts *)

Lemma clean_nonempty (s : list N) : clean s -> s <> [].
Proof. intros [(c & r & -> & _) _]. discriminate. Qed.

Lemma clean_trim (s : list N) : clean s -> trim s = s.
Proof.
  intros [(c & r & E & Hc) (c' & r' & E' & Hc')]. unfold trim, trimEnd.
  rewrite (trimStart_fixed s c r E Hc).
  rewrite (trimStart_fixed (rev s) c' r' E' Hc'). apply rev_involutive.
Qed.

Lemma trim_clean (s : list N) : trim s <> [] -> clean (trim s).
Proof.
  intros H. split.
  - destruct (trim s) as [|c r] eqn:E; [congruence|].
    exists c, r. split; [reflexivity|]. eapply trim_head, E.
  - destruct (rev (trim s)) as [|c r] eqn:E.
    + apply (f_equal (@rev N)) in E. rewrite rev_involutive in E.
      cbn in E. congruence.
    + exists c, r. split; [reflexivity|]. eapply trim_last, E.
Qed.

Lemma trimStart_nil (s : list N) :
  trimStart s = [] <-> Forall (fun c => is_trim_space c = true) s.
Proof.
  induction s as [|c r IH]; cbn; [split; [constructor|reflexivity]|].
  destruct (is_trim_space c) eqn:E.
  - rewrite IH. split; [now constructor|]. intros H.
    now apply Forall_cons in H as [_ H].
  - split; [discriminate|]. intros H. apply Forall_cons in H as [H _].
    congruence.
Qed.

(** X14.  An input is blank for [addTodo] and for [saveEdit] exactly when
    every code unit of it is white space or a line terminator (the empty
    input included); only then is it refused.  A text that is kept has
    nothing of the kind at either end, and trimming it again changes
    nothing. *)
Theorem trim_blank (s : list N) :
  (trim s = [] <-> Forall (fun c => is_trim_space c = true) s) /\
  (trim s <> [] -> clean (trim s)) /\
  trim (trim s) = trim s.
Proof.
  split; [|split; [apply trim_clean|apply trim_idempotent]].
  unfold trim, trimEnd. split.
  - intros H. apply (f_equal (@rev N)) in H. rewrite rev_involutive in H.
    cbn in H. apply trimStart_nil in H.
    destruct (trimStart_suffix s) as [p Hp].
    destruct (trimStart s) as [|c r] eqn:E.
    + now apply trimStart_nil.
    + exfalso. pose proof (trimStart_head _ _ _ E) as Hc.
      rewrite List.Forall_forall in H. specialize (H c).
      rewrite H in Hc; [discriminate|].
      apply (proj1 (in_rev (c :: r) c)). now left.
  - intros H. apply trimStart_nil in H. now rewrite H.
Qed.

(** *** What a run keeps *)

Lemma reachable_Inv v st : reachable v st -> Inv (todos st).
Proof.
  induction 1 as [|st st' _ IH Hs|st l _ IH Hl]; [apply Inv_nil| |].
  - eapply step_Inv; eauto.
  - rewrite loaded_save in Hl. now injection Hl as <-.
Qed.

Lemma Forall_filter_keep {A} (P : A -> Prop) (f : A -> bool) (l : list A) :
  Forall P l -> Forall P (List.filter f l).
Proof.
  rewrite !List.Forall_forall. intros H x Hx. apply H.
  now apply filter_In in Hx.
Qed.

Lemma step_Forall (P : Todo -> Prop) v st st' :
  (forall t, P t -> P (flip_completed t)) ->
  (forall t s, trim s <> [] -> P t -> P (with_text (trim s) t)) ->
  (forall uuid now s, trim s <> [] ->
     P {| id := uuid; text := trim s; completed := false;
          createdAt := if has_createdAt v then Some now else None |}) ->
  Forall P (todos st) -> step v st st' -> Forall P (todos st').
Proof.
  intros Hflip Htext Hnew HP Hstep. destruct Hstep; cbn; try exact HP.
  - unfold addTodo. destruct (nonempty (trim (newTodo st))) eqn:E;
      [|exact HP].
    cbn. apply Forall_app. split; [exact HP|]. constructor; [|constructor].
    apply Hnew. now apply nonempty_true.
  - apply Forall_map. eapply Forall_impl; [exact HP|]. intros t Pt. cbn.
    destruct (String_eqb (id t) i); auto.
  - now apply Forall_filter_keep.
  - unfold saveEdit. destruct (editingId st) as [eid|]; [|exact HP].
    destruct (truthy (Some eid) && nonempty (trim (editText st))) eqn:E;
      [|exact HP].
    apply andb_true_iff in E as [_ E].
    cbn. apply Forall_map. eapply Forall_impl; [exact HP|]. intros t Pt. cbn.
    destruct (String_eqb (id t) eid); [|exact Pt].
    apply Htext; [|exact Pt]. now apply nonempty_true.
  - now apply Forall_filter_keep.
Qed.

(** X15.  Whatever the user does from the empty collection, reloads of
    the page included, every task's text has something in it and no white
    space at either end. *)
Theorem reachable_texts_clean v st :
  reachable v st -> Forall (fun t => clean (text t)) (todos st).
Proof.
  induction 1 as [|st st' _ IH Hs|st l _ IH Hl]; [constructor| |].
  - eapply step_Forall; [| | |exact IH|exact Hs]; cbn.
    + auto.
    + intros t s Hs' _. now apply trim_clean.
    + intros uuid now s Hs'. now apply trim_clean.
  - rewrite loaded_save in Hl. now injection Hl as <-.
Qed.

(** X16.  Along a run, tasks carry a creation time in the two variants
    that record one and none in the variant that does not; so in the
    variant that sorts, the list under every tab is in order: open tasks
    before completed ones, newer before older. *)
Theorem reachable_sorted v st :
  reachable v st ->
  Forall (fun t => if has_createdAt v then stamped t
                   else createdAt t = None) (todos st) /\
  (sorts_view v = true -> StronglySorted view_le (filteredTodos v st)).
Proof.
  intros Hr.
  assert (Hs : Forall (fun t => if has_createdAt v then stamped t
                                else createdAt t = None) (todos st)).
  { induction Hr as [|st st' _ IH Hs|st l _ IH Hl]; [constructor| |].
    - eapply step_Forall; [| | |exact IH|exact Hs]; cbn; try tauto.
      intros uuid now s _.
      destruct (has_createdAt v); [now exists now|easy].
    - rewrite loaded_save in Hl. now injection Hl as <-. }
  split; [exact Hs|]. intros Hv. unfold filteredTodos. rewrite Hv.
  apply Array_sort_sorted, Forall_filter_keep.
  destruct v; try discriminate. exact Hs.
Qed.

Lemma filter_sort_insert_length (p : Todo -> bool) x l :
  length (List.filter p (sort_insert x l)) = length (List.filter p (x :: l)).
Proof.
  induction l as [|y r IH]; [reflexivity|]. cbn in *.
  destruct (SortCompare x y <=? 0)%Z; [reflexivity|]. cbn.
  destruct (p y), (p x); cbn in *; lia.
Qed.

Lemma filter_Array_sort_length (p : Todo -> bool) l :
  length (List.filter p (Array_sort l)) = length (List.filter p l).
Proof.
  induction l as [|x r IH]; [reflexivity|]. cbn [Array_sort].
  rewrite filter_sort_insert_length. cbn. destruct (p x); cbn; lia.
Qed.

Lemma filter_filter_length {A} (p q : A -> bool) (l : list A) :
  length (List.filter p (List.filter q l))
  = length (List.filter (fun x => q x && p x) l).
Proof.
  induction l as [|a l IH]; [reflexivity|]. cbn.
  destruct (q a); cbn; [destruct (p a); cbn; lia|exact IH].
Qed.

Lemma unique_count (q : Todo -> bool) l t :
  NoDup (map id l) -> t ∈ l ->
  length (List.filter (fun x => q x && String_eqb (id t) (id x)) l)
  = if q t then 1%nat else 0%nat.
Proof.
  induction l as [|a l IH]; intros Hnd Ht; [inversion Ht|].
  cbn in Hnd. apply NoDup_cons in Hnd as [Hna Hnd]. cbn.
  destruct (String_eqb (id t) (id a)) eqn:E.
  - apply String_eqb_eq in E.
    assert (a = t) as ->.
    { apply elem_of_cons in Ht as [->|Ht]; [reflexivity|].
      exfalso. apply Hna. rewrite <- E. apply list_elem_of_fmap.
      now exists t. }
    rewrite filter_none.
    + rewrite andb_true_r. now destruct (q t).
    + intros x Hx. apply andb_false_iff. right. apply String_eqb_neq.
      intros Hxt. apply Hna. rewrite Hxt. apply list_elem_of_fmap.
      now exists x.
  - rewrite andb_false_r. apply String_eqb_neq in E.
    apply elem_of_cons in Ht as [->|Ht]; [congruence|]. now apply IH.
Qed.

(** X17.  Along a run the ids stay pairwise distinct (the ids
    [crypto.randomUUID()] returns being new), so deleting a task that is
    there takes the count down by exactly one; and of the rows rendered,
    which are those of [filteredTodos], the one in edit mode is the row of
    the task being edited when the current tab shows that task, and none
    otherwise. *)
Theorem reachable_unique v st i :
  reachable v st -> (exists t, t ∈ todos st /\ id t = i) ->
  S (length (todos (deleteTodo i st))) = length (todos st) /\
  (editingId st = Some i ->
   forall t, t ∈ todos st -> id t = i ->
   length (List.filter (row_editing st) (filteredTodos v st))
   = if keeps (filter st) t then 1%nat else 0%nat).
Proof.
  intros Hr Hex. destruct (reachable_Inv _ _ Hr) as [Hnd _].
  pose proof (with_id_unique i (todos st) Hnd Hex) as H1.
  pose proof (filter_split_length
                (fun todo => String_eqb (id todo) i) (todos st)) as Hlen.
  unfold with_id in H1. split.
  - unfold deleteTodo. cbn [todos set_todos]. lia.
  - intros He t Ht <-. unfold filteredTodos.
    assert (length (List.filter (row_editing st)
                      (if sorts_view v
                       then Array_sort
                              (List.filter (keeps (filter st)) (todos st))
                       else List.filter (keeps (filter st)) (todos st)))
            = length (List.filter (row_editing st)
                        (List.filter (keeps (filter st)) (todos st)))) as ->.
    { destruct (sorts_view v); [apply filter_Array_sort_length|reflexivity]. }
    rewrite filter_filter_length.
    rewrite <- (unique_count (keeps (filter st)) (todos st) t Hnd Ht).
    f_equal. apply filter_ext. intros x. unfold row_editing.
    now rewrite He.
Qed.

(** *** The sorted view *)

Lemma view_le_SortCompare a b : view_le a b -> (SortCompare a b <= 0)%Z.
Proof.
  unfold view_le, SortCompare, compareFn.
  intros [[-> ->]|[E (ta & tb & -> & -> & H)]]; cbn; [lia|].
  rewrite E. rewrite eqb_reflx. cbn. lia.
Qed.

Lemma sort_insert_head x y l :
  (SortCompare x y <= 0)%Z -> sort_insert x (y :: l) = x :: y :: l.
Proof. intros H. cbn. now rewrite (proj2 (Z.leb_le _ _) H). Qed.

Lemma filter_sort_insert (p : Todo -> bool) x l :
  stamped x -> Forall stamped l -> StronglySorted view_le l ->
  List.filter p (sort_insert x l)
  = if p x then sort_insert x (List.filter p l) else List.filter p l.
Proof.
  intros Hx Hall Hs. induction Hs as [|y r Hs IH Hy]; cbn.
  - now destruct (p x).
  - apply Forall_cons in Hall as [Hsy Hall]. specialize (IH Hall).
    destruct (SortCompare x y <=? 0)%Z eqn:E.
    + apply Z.leb_le in E. cbn. destruct (p x) eqn:Ex; [|reflexivity].
      destruct (p y) eqn:Ey; [now rewrite sort_insert_head|].
      destruct (List.filter p r) as [|z r'] eqn:Er; [reflexivity|].
      rewrite sort_insert_head; [reflexivity|].
      apply view_le_SortCompare.
      apply (view_le_trans _ y); [now apply SortCompare_le|].
      rewrite List.Forall_forall in Hy. apply Hy.
      apply (filter_In p z r). rewrite Er. now left.
    + cbn. rewrite IH. destruct (p x), (p y); cbn; rewrite ?E; reflexivity.
Qed.

Lemma filter_Array_sort (p : Todo -> bool) l :
  Forall stamped l ->
  List.filter p (Array_sort l) = Array_sort (List.filter p l).
Proof.
  induction l as [|x r IH]; [reflexivity|]. intros Hall.
  apply Forall_cons in Hall as [Hx Hall]. cbn.
  rewrite filter_sort_insert; [|exact Hx| |now apply Array_sort_sorted].
  - rewrite IH by exact Hall. now destruct (p x).
  - apply List.Forall_forall. intros z Hz.
    apply (Permutation_in _ (Array_sort_perm r)) in Hz.
    revert z Hz. now apply List.Forall_forall.
Qed.

(** X18.  In every variant what a tab shows is the "all" list with the
    rows of the other kind taken out: the tabs never disagree on the
    order of two tasks.  (In the sorting variant this needs the tasks to
    carry their creation time, as they do along a run.) *)
Theorem view_of_all v f l :
  (sorts_view v = true -> Forall stamped l) ->
  view v f l = List.filter (keeps f) (view v All l).
Proof.
  intros H. unfold view, filteredTodos. cbn [todos filter].
  change (keeps All) with (fun _ : Todo => true). rewrite filter_true.
  destruct (sorts_view v); [|reflexivity].
  symmetry. apply filter_Array_sort. now apply H.
Qed.

(** X19.  The rows are keyed by [todo.id]: when the ids of the
    collection are pairwise distinct, so are the keys of the rows under
    every tab, in every variant. *)
Theorem view_keys_unique v f l :
  NoDup (map id l) -> NoDup (map id (view v f l)).
Proof.
  intros Hnd. unfold view, filteredTodos. cbn [todos filter].
  assert (Hf : NoDup (map id (List.filter (keeps f) l))).
  { eapply sublist_NoDup; [exact Hnd|].
    apply (fmap_sublist id), filter_sublist. }
  destruct (sorts_view v); [|exact Hf].
  assert (Hp : map id (Array_sort (List.filter (keeps f) l))
               ≡ₚ map id (List.filter (keeps f) l))
    by apply Permutation_map, Array_sort_perm.
  now rewrite Hp.
Qed.

(** X20.  No event rewrites or reorders the ids and creation times of the
    tasks: after an event they are those of before with some taken out,
    or, after [addTodo], with one put at the end. *)
Theorem step_keys v st st' :
  step v st st' ->
  map task_key (todos st') `sublist_of` map task_key (todos st) \/
  exists t, todos st' = todos st ++ [t].
Proof.
  intros Hs. destruct Hs; cbn; try (left; reflexivity).
  - unfold addTodo. destruct (nonempty (trim (newTodo st)));
      [right; eexists; reflexivity|left; reflexivity].
  - left. rewrite map_map. erewrite map_ext; [reflexivity|].
    intros t. cbn. now destruct (String_eqb (id t) i).
  - left. apply (fmap_sublist task_key), filter_sublist.
  - left. unfold saveEdit. destruct (editingId st) as [eid|]; [|reflexivity].
    destruct (truthy (Some eid) && nonempty (trim (editText st)));
      [|reflexivity].
    cbn. rewrite map_map. erewrite map_ext; [reflexivity|].
    intros t. cbn. now destruct (String_eqb (id t) eid).
  - left. apply (fmap_sublist task_key), filter_sublist.
Qed.

End Runs.

(** ** More of the component: theme and stored text *)

Section ThemeAndStorage.

(** X21.  Whatever the theme string is, [toggleTheme] makes it ['light']
    or ['dark'], and the [dark] class is then on exactly when the theme
    was ['light'].  Toggling twice gives the theme back exactly when it
    was one of the two; any other stored string ends up as ['light']. *)
Theorem toggleTheme_valid (theme : list N) :
  (toggleTheme theme = light \/ toggleTheme theme = dark) /\
  dark_class (toggleTheme theme) = String_eqb theme light /\
  (toggleTheme (toggleTheme theme) = theme <->
   theme = light \/ theme = dark) /\
  (theme <> light -> toggleTheme theme = light).
Proof.
  unfold toggleTheme, dark_class.
  destruct (String_eqb theme light) eqn:E.
  - apply String_eqb_eq in E. subst.
    split; [now right|]. split; [reflexivity|]. split; [|congruence].
    split; [now left|reflexivity].
  - apply String_eqb_neq in E.
    split; [now left|]. split; [reflexivity|]. split; [|reflexivity].
    change (String_eqb light light) with true. cbn. split.
    + intros H. now right.
    + intros [H|H]; [contradiction|now symmetry].
Qed.


(** X23.  On task collections as the data model has them (16-bit code
    units, timestamps that are integers below 2^53 in magnitude), what
    [save] writes determines the collection: two collections with the same
    stored text are equal, and the text is never one on which the load
    effect throws or skips [setTodos], whatever is in the tasks'
    strings. *)
Theorem save_injective (l1 l2 : list Todo) :
  Forall valid_todo l1 -> Forall valid_todo l2 ->
  save l1 = save l2 ->
  l1 = l2 /\ load (save l1) <> Thrown /\ load (save l1) <> NotSet.
Proof.
  intros _ _ H. pose proof (loaded_save l1) as H1.
  pose proof (loaded_save l2) as H2. rewrite <- H in H2.
  split; [congruence|]. rewrite load_save. split; discriminate.
Qed.

End ThemeAndStorage.

Section MoreWitnesses.

Lemma one_task_todos : todos one_task_state = [milk_task].
Proof. reflexivity. Defined.

Lemma one_task_reachable : reachable TaskMaster one_task_state.
Proof.
  eapply reach_step; [eapply reach_step; [apply reach_init|]|].
  - apply (step_type _ _ (str " Buy milk ")).
  - apply step_add. intros H. inversion H.
Defined.

Lemma milk_in : milk_task ∈ todos one_task_state.
Proof. rewrite one_task_todos. constructor. Defined.

Lemma one_task_NoDup : NoDup (map id (todos one_task_state)).
Proof. rewrite one_task_todos. cbn. apply NoDup_singleton. Defined.

Lemma run_4_reachable : reachable TaskMaster run_4.
Proof.
  assert (Hf : forall (u : list N) (st : AppState),
            (In u (map id (todos st)) -> False) -> u ∉ map id (todos st)).
  { intros u st H Hin. apply H. now apply list_elem_of_In. }
  eapply reach_step; [eapply reach_step; [eapply reach_step;
    [eapply reach_step; [eapply reach_step; [eapply reach_step;
      [eapply reach_step; [apply reach_init|]|]|]|]|]|]|].
  - apply (step_type _ _ (str "one")).
  - apply (step_add _ _ (str "c") 1000%Z). apply Hf. cbn. tauto.
  - apply (step_type _ _ (str "two")).
  - apply (step_add _ _ (str "d") 2000%Z). apply Hf. vm_compute.
    intros [H|[]]. discriminate.
  - apply (step_toggle _ _ (str "c")).
  - apply (step_type _ _ (str "three")).
  - apply (step_add _ _ (str "e") 3000%Z). apply Hf. vm_compute.
    intros [H|[H|[]]]; discriminate.
Defined.

Lemma run_hidden_reachable : reachable TaskMaster run_hidden.
Proof.
  eapply reach_step; [eapply reach_step; [exact run_4_reachable|]|].
  - apply step_start. vm_compute. constructor.
  - apply (step_filter _ _ Active).
Defined.

Lemma sample_NoDup : NoDup (map id (todos sample_state)).
Proof.
  cbn. apply NoDup_cons. split.
  - intros H. apply list_elem_of_singleton in H. discriminate.
  - apply NoDup_singleton.
Defined.

Lemma clear_shown_iff_witness :
  clear_shown TaskMaster one_task_state = false /\
  clearCompleted one_task_state = one_task_state.
Proof.
  split; [reflexivity|].
  exact (proj2 (proj2 (clear_shown_iff one_task_state)) eq_refl).
Defined.

Lemma typed_nonblank : trim (newTodo typed_state) <> [].
Proof. vm_compute. discriminate. Defined.

Lemma addTodo_counts_witness :
  trim (newTodo typed_state) <> [] /\
  activeTodoCount (addTodo TaskMaster (str "c") 1700000000000 typed_state)
  = S (activeTodoCount typed_state).
Proof.
  split; [exact typed_nonblank|].
  exact (proj1 (addTodo_counts TaskMaster (str "c") 1700000000000
                  typed_state typed_nonblank)).
Defined.

Lemma no_task_z : forall t, t ∈ todos one_task_state -> id t <> str "z".
Proof.
  intros t Ht. rewrite one_task_todos in Ht.
  apply list_elem_of_singleton in Ht. subst. discriminate.
Defined.

Lemma missing_id_noop_witness :
  (forall t, t ∈ todos one_task_state -> id t <> str "z") /\
  toggleTodo (str "z") one_task_state = one_task_state.
Proof.
  split; [exact no_task_z|].
  exact (proj1 (missing_id_noop one_task_state (str "z") no_task_z)).
Defined.

Lemma saveEdit_after_removal_witness :
  editingId editing_state = Some (str "c") /\
  editingId (deleteTodo (str "c") editing_state) = Some (str "c") /\
  todos (saveEdit (deleteTodo (str "c") editing_state))
  = todos (deleteTodo (str "c") editing_state).
Proof.
  split; [reflexivity|].
  destruct (proj1 (saveEdit_after_removal editing_state (str "c") eq_refl))
    as (H1 & _ & H2).
  split; [exact H1|exact H2].
Defined.

Lemma toggleTodo_counts_witness :
  NoDup (map id (todos one_task_state)) /\
  milk_task ∈ todos one_task_state /\
  completed milk_task = false /\
  completedTodoCount (toggleTodo (id milk_task) one_task_state)
  = S (completedTodoCount one_task_state).
Proof.
  split; [exact one_task_NoDup|]. split; [exact milk_in|].
  split; [reflexivity|].
  exact (proj2 (proj1 (proj2 (toggleTodo_counts one_task_state milk_task
                                one_task_NoDup milk_in)) eq_refl)).
Defined.

Lemma add_then_delete_witness :
  (str "c" ∉ map id (todos sample_state)) /\
  todos (deleteTodo (str "c")
           (addTodo TaskMaster (str "c") 1700000000000 sample_state))
  = [done_task; open_task].
Proof.
  split; [exact fresh_c|].
  exact (add_then_delete TaskMaster (str "c") 1700000000000 sample_state
           fresh_c).
Defined.

Lemma milk_id : id milk_task <> [].
Proof. discriminate. Defined.

Lemma milk_text : text milk_task <> [].
Proof. discriminate. Defined.

Lemma milk_trimmed : trim (text milk_task) = text milk_task.
Proof. reflexivity. Defined.

Lemma edit_untouched_witness :
  NoDup (map id (todos one_task_state)) /\
  milk_task ∈ todos one_task_state /\
  todos (saveEdit (startEditing milk_task one_task_state))
  = todos one_task_state.
Proof.
  split; [exact one_task_NoDup|]. split; [exact milk_in|].
  exact (proj1 (edit_untouched one_task_state milk_task one_task_NoDup
                  milk_in milk_id milk_text milk_trimmed)).
Defined.

Lemma trim_blank_witness :
  trim (str " Buy milk ") <> [] /\ clean (trim (str " Buy milk ")).
Proof.
  split; [exact typed_nonblank|].
  exact (proj1 (proj2 (trim_blank (str " Buy milk "))) typed_nonblank).
Defined.

Lemma reachable_texts_clean_witness :
  reachable TaskMaster one_task_state /\
  Forall (fun t => clean (text t)) (todos one_task_state).
Proof.
  split; [exact one_task_reachable|].
  exact (reachable_texts_clean TaskMaster one_task_state one_task_reachable).
Defined.

Lemma reachable_sorted_witness :
  reachable TaskMaster run_4 /\
  length (filteredTodos TaskMaster run_4) = 3%nat /\
  StronglySorted view_le (filteredTodos TaskMaster run_4).
Proof.
  split; [exact run_4_reachable|]. split; [reflexivity|].
  exact (proj2 (reachable_sorted TaskMaster run_4 run_4_reachable) eq_refl).
Defined.

Lemma milk_has_c : exists t, t ∈ todos one_task_state /\ id t = str "c".
Proof. exists milk_task. split; [exact milk_in|reflexivity]. Defined.

Lemma run_hidden_has_c :
  exists t, t ∈ todos run_hidden /\ id t = str "c".
Proof. eexists. split; [vm_compute; constructor|reflexivity]. Defined.

Lemma reachable_unique_witness :
  reachable TaskMaster run_hidden /\
  (exists t, t ∈ todos run_hidden /\ id t = str "c") /\
  editingId run_hidden = Some (str "c") /\
  S (length (todos (deleteTodo (str "c") run_hidden)))
  = length (todos run_hidden) /\
  length (List.filter (row_editing run_hidden)
            (filteredTodos TaskMaster run_hidden)) = 0%nat.
Proof.
  split; [exact run_hidden_reachable|]. split; [exact run_hidden_has_c|].
  split; [reflexivity|].
  destruct (reachable_unique TaskMaster run_hidden (str "c")
              run_hidden_reachable run_hidden_has_c) as [H1 H2].
  split; [exact H1|].
  exact (H2 eq_refl
           {| id := str "c"; text := str "one"; completed := true;
              createdAt := Some 1000%Z |}
           ltac:(vm_compute; constructor) eq_refl).
Defined.

Lemma sample_stamped : Forall stamped (todos sample_state).
Proof. repeat constructor; eexists; reflexivity. Defined.

Lemma view_of_all_witness :
  Forall stamped (todos sample_state) /\
  view TaskMaster Active (todos sample_state)
  = List.filter (keeps Active) (view TaskMaster All (todos sample_state)).
Proof.
  split; [exact sample_stamped|].
  exact (view_of_all TaskMaster Active (todos sample_state)
           (fun _ => sample_stamped)).
Defined.

Lemma view_keys_unique_witness :
  NoDup (map id (todos sample_state)) /\
  length (view TaskMaster All (todos sample_state)) = 2%nat /\
  NoDup (map id (view TaskMaster All (todos sample_state))).
Proof.
  split; [exact sample_NoDup|]. split; [reflexivity|].
  exact (view_keys_unique TaskMaster All (todos sample_state) sample_NoDup).
Defined.

Lemma step_keys_witness :
  step TaskMaster one_task_state (deleteTodo (str "c") one_task_state) /\
  (map task_key (todos (deleteTodo (str "c") one_task_state))
     `sublist_of` map task_key (todos one_task_state) \/
   exists t, todos (deleteTodo (str "c") one_task_state)
             = todos one_task_state ++ [t]).
Proof.
  split; [apply step_delete|].
  exact (step_keys TaskMaster one_task_state _
           (step_delete _ _ (str "c"))).
Defined.





Lemma toggleTheme_valid_witness :
  str "blue" <> light /\ toggleTheme (str "blue") = light.
Proof.
  assert (H : str "blue" <> light) by discriminate.
  split; [exact H|].
  exact (proj2 (proj2 (proj2 (toggleTheme_valid (str "blue")))) H).
Defined.

Lemma save_injective_witness :
  Forall valid_todo (todos sample_state) /\
  save (todos sample_state) = save [done_task; open_task] /\
  todos sample_state = [done_task; open_task].
Proof.
  split; [exact (proj2 sample_valid)|]. split; [reflexivity|].
  exact (proj1 (save_injective (todos sample_state) [done_task; open_task]
                  (proj2 sample_valid) (proj2 sample_valid) eq_refl)).
Defined.

End MoreWitnesses.
